(** * YuiOss: the remote path-tree engine of [yui_oss/manager.py] and the
      [cd] command of [yui_oss/console.py]

    A shallow embedding of the path normaliser, of the copy / move / delete /
    download / upload engines of [OssFileManager], of its digest conversions
    and [get_md5], and of [Yui.cd] and [Yui.ls].

    Conventions of the embedding.
    - Python [str] values are [string]s; a character is a code point below
      256.  [os.sep] is ["/"] and [os.path] is [posixpath] (the client is
      modelled on a POSIX host).
    - The bucket ([prox_oss2.Bucket]) and the local file system are external
      collaborators: they are an interface ([Outside]) whose calls either
      return or raise.  Every call the engine makes is written to a log, and
      so is every invocation of a callback, with the positional arguments as
      the source passes them.
    - A listing ([oss2.ObjectIterator]) is taken in one call when the loop
      over it starts. *)

From Stdlib Require Import String Ascii List ZArith NArith Bool Lia.
From Stdlib Require DecimalString.
Import ListNotations.
Open Scope string_scope.
Open Scope list_scope.

(** ** Python string primitives *)

Module PyStr.

(** [str.isspace] on one character, for code points below 256. *)
Definition is_space (c : ascii) : bool :=
  let n := nat_of_ascii c in
  (Nat.leb 9 n && Nat.leb n 13) || (Nat.leb 28 n && Nat.leb n 32)
  || Nat.eqb n 133 || Nat.eqb n 160.

Fixpoint lstrip_by (f : ascii -> bool) (s : string) : string :=
  match s with
  | EmptyString => EmptyString
  | String c s' => if f c then lstrip_by f s' else s
  end.

Fixpoint rstrip_by (f : ascii -> bool) (s : string) : string :=
  match s with
  | EmptyString => EmptyString
  | String c s' =>
      match rstrip_by f s' with
      | EmptyString => if f c then EmptyString else String c EmptyString
      | r => String c r
      end
  end.

Definition strip_by (f : ascii -> bool) (s : string) : string :=
  rstrip_by f (lstrip_by f s).

(** [s.strip()] *)
Definition strip (s : string) : string := strip_by is_space s.

(** [s.strip(c)] for a one-character [c] *)
Definition strip_char (c : ascii) (s : string) : string :=
  strip_by (Ascii.eqb c) s.

(** [s.split(c)] for a one-character separator [c] *)
Fixpoint split (sep : ascii) (s : string) : list string :=
  match s with
  | EmptyString => [EmptyString]
  | String c s' =>
      if Ascii.eqb c sep then EmptyString :: split sep s'
      else match split sep s' with
           | [] => [String c EmptyString]
           | w :: ws => String c w :: ws
           end
  end.

(** [sep.join(l)] *)
Definition join (sep : string) (l : list string) : string :=
  String.concat sep l.

(** [s.startswith(p)] *)
Definition startswith (s p : string) : bool := String.prefix p s.

Fixpoint last_char (s : string) : option ascii :=
  match s with
  | EmptyString => None
  | String c EmptyString => Some c
  | String _ s' => last_char s'
  end.

(** [s.endswith(c)] for a one-character [c] *)
Definition endswith_char (s : string) (c : ascii) : bool :=
  match last_char s with
  | Some d => Ascii.eqb d c
  | None => false
  end.

Fixpoint drop (n : nat) (s : string) : string :=
  match n, s with
  | O, _ => s
  | S k, EmptyString => EmptyString
  | S k, String _ s' => drop k s'
  end.

Fixpoint replace_from (old new s : string) (skip : nat) : string :=
  match s with
  | EmptyString => EmptyString
  | String c s' =>
      match skip with
      | S k => replace_from old new s' k
      | O =>
          if String.prefix old s
          then (new ++ replace_from old new s' (String.length old - 1))%string
          else String c (replace_from old new s' 0)
      end
  end.

Fixpoint intersperse (new s : string) : string :=
  match s with
  | EmptyString => new
  | String c s' => (new ++ String c (intersperse new s'))%string
  end.

(** [s.replace(old, new)]: every non-overlapping occurrence, left to right;
    an empty [old] matches between all characters. *)
Definition replace (s old new : string) : string :=
  match old with
  | EmptyString => intersperse new s
  | _ => replace_from old new s 0
  end.

(** [x in l] for a list of strings *)
Definition str_in (x : string) (l : list string) : bool :=
  existsb (String.eqb x) l.

End PyStr.

(** ** [posixpath] *)

Module PosixPath.
Import PyStr.

(** One turn of the component loop of [posixpath.normpath]. *)
Definition normpath_step (initial_slashes : nat) (new_comps : list string)
    (comp : string) : list string :=
  if str_in comp [""; "."] then new_comps
  else if negb (String.eqb comp "..")
          || (Nat.eqb initial_slashes 0 && Nat.eqb (List.length new_comps) 0)
          || (negb (Nat.eqb (List.length new_comps) 0)
              && String.eqb (List.last new_comps "") "..")
       then new_comps ++ [comp]
       else List.removelast new_comps.

Fixpoint repeat_str (s : string) (n : nat) : string :=
  match n with
  | O => ""
  | S k => (s ++ repeat_str s k)%string
  end.

(** The number [posixpath.normpath] keeps of the leading slashes: one or two
    are kept, three or more count as one. *)
Definition initial_slashes (path : string) : nat :=
  if startswith path "/"
  then if startswith path "//" && negb (startswith path "///") then 2 else 1
  else 0.

(** [posixpath.normpath] (Python standard library, Lib/posixpath.py). *)
Definition normpath (path : string) : string :=
  if String.eqb path "" then "."
  else
    let k := initial_slashes path in
    let comps := fold_left (normpath_step k) (split "/" path) [] in
    let p := (repeat_str "/" k ++ join "/" comps)%string in
    if String.eqb p "" then "." else p.

(** [posixpath.join(a, b)] *)
Definition path_join (a b : string) : string :=
  if startswith b "/" then b
  else if String.eqb a "" || endswith_char a "/" then (a ++ b)%string
  else (a ++ "/" ++ b)%string.

(** [posixpath.abspath(path)], the working directory being [cwd]. *)
Definition abspath (cwd path : string) : string :=
  normpath (if startswith path "/" then path else path_join cwd path).

End PosixPath.

(** ** Effects: exceptions, the log, the collaborators *)

Module Effects.

(** Modelled from the spec: the exception classes of [yui_oss/exception.py]
    (the error taxonomy of the engine, one class per operation family); the
    file itself is not part of the sources at hand. *)
Inductive yui_class : Type :=
| YuiListBucketException | YuiChangeBucketException | YuiBucketException
| YuiDeleteBucketException | YuiGetMD5Exception | YuiIsExistException
| YuiUploadException | YuiDownloadException | YuiDeleteException
| YuiCopyException | YuiMoveException | YuiListDirException.

(** A raised exception: one of a collaborator or of a built-in (by class
    name), a Yui exception built on a text, or one built on a caught
    exception. *)
Inductive exn : Type :=
| Error (name : string)
| YuiText (cls : yui_class) (text : string)
| YuiFrom (cls : yui_class) (cause : exn).

Inductive outcome (A : Type) : Type :=
| Returned (a : A)
| Raised (e : exn).
Arguments Returned {A} a.
Arguments Raised {A} e.

(** A value handed to a callback. [Result st] is a request result whose
    [status] is [st]. *)
Inductive pyval : Type :=
| Str (s : string)
| PyNone
| Result (status : Z).

Inductive call : Type :=
| ListObjects (prefix delimiter : string)
| CopyObject (src dst : string)
| DeleteObject (key : string)
| ObjectExists (key : string)
| GetObjectToFile (key filename : string)
| Mkdir (path : string).

Inductive event : Type :=
| Called (c : call)
| OnSuccess (args : list pyval)
| OnError (args : list pyval).

(** The bucket and the local file system, as the engine uses them.  A
    request for a copy names the bucket itself as the source bucket, which is
    left out here, and so is the progress callback of a transfer. *)
Class Outside (E : Type) : Type := {
  bucket_list_objects : string -> string -> E -> outcome (list string) * E;
  bucket_copy_object : string -> string -> E -> outcome Z * E;
  bucket_delete_object : string -> E -> outcome Z * E;
  bucket_object_exists : string -> E -> outcome bool * E;
  bucket_get_object_to_file : string -> string -> E -> outcome Z * E;
  os_path_isdir : string -> E -> bool;
  os_mkdir : string -> E -> outcome unit * E;
  os_getcwd : E -> string
}.

Record world (E : Type) : Type := World { outside : E; log : list event }.
Arguments World {E} outside log.
Arguments outside {E} w.
Arguments log {E} w.

(** A computation of the engine: it may call the collaborators, extend the
    log, return or raise. *)
Definition M (E A : Type) : Type := world E -> outcome A * world E.

Definition ret {E A} (a : A) : M E A := fun w => (Returned a, w).

Definition bind {E A B} (c : M E A) (k : A -> M E B) : M E B :=
  fun w =>
    match c w with
    | (Returned a, w') => k a w'
    | (Raised e, w') => (Raised e, w')
    end.

Definition raise {E A} (e : exn) : M E A := fun w => (Raised e, w).

(** [try: body  except Exception as e: raise cls(e)] *)
Definition try_wrap {E A} (cls : yui_class) (body : M E A) : M E A :=
  fun w =>
    match body w with
    | (Raised e, w') => (Raised (YuiFrom cls e), w')
    | r => r
    end.

(** A call of a collaborator: logged, then answered by the collaborator. *)
Definition invoke {E A} (c : call) (f : E -> outcome A * E) : M E A :=
  fun w =>
    let (r, e') := f (outside w) in
    (r, World e' (log w ++ [Called c])).

(** A query of the local file system that changes nothing. *)
Definition ask {E A} (f : E -> A) : M E A :=
  fun w => (Returned (f (outside w)), w).

(** A callback is a callable applied to positional arguments: it returns
    ([None]) or raises. *)
Definition callback : Type := list pyval -> option exn.

Record callbacks : Type := Callbacks {
  on_success : option callback;
  on_error : option callback
}.

(** [cb(args) if cb else None] *)
Definition call_back {E} (ev : list pyval -> event) (cb : option callback)
    (args : list pyval) : M E unit :=
  match cb with
  | None => ret tt
  | Some f =>
      fun w =>
        (match f args with None => Returned tt | Some e => Raised e end,
         World (outside w) (log w ++ [ev args]))
  end.

(** [for x in l: body(x)] *)
Fixpoint for_each {E A} (l : list A) (body : A -> M E unit) : M E unit :=
  match l with
  | [] => ret tt
  | x :: xs => bind (body x) (fun _ => for_each xs body)
  end.

End Effects.

Import Effects.

Declare Scope py_scope.
Delimit Scope py_scope with py.
Notation "x <- c ;; k" := (bind c (fun x => k))
  (at level 61, c at next level, right associativity) : py_scope.
Notation "c ;; k" := (bind c (fun _ => k))
  (at level 61, right associativity) : py_scope.

(** ** [OssFileManager] *)

Module OssFileManager.
Import PyStr PosixPath.

Definition SEP : string := "/".
Definition os_sep : string := "/".

(** [OssFileManager.norm_path] *)
Definition norm_path (remote_path : string) : string :=
  let remote_path := strip remote_path in
  let isdir :=
    endswith_char remote_path "/" || str_in (strip remote_path) [""; "."; ".."] in
  let remote_path := replace (normpath remote_path) os_sep SEP in
  if String.eqb remote_path "" || String.eqb remote_path SEP then SEP
  else if isdir then (remote_path ++ SEP)%string
  else remote_path.

(** [OssFileManager.is_dir] *)
Definition is_dir (remote_path : string) : bool :=
  if str_in (strip remote_path) [""; "."; ".."] then true
  else endswith_char (norm_path remote_path) "/".

(** [path.strip(SEP).split(SEP)] *)
Definition segments (path : string) : list string :=
  split "/" (strip_char "/" path).

(** [SEP.join(path.strip(SEP).split(SEP)[:-1]) + SEP], the expression [copy]
    and [move] bind to [prefix]. *)
Definition parent_prefix (path : string) : string :=
  (join SEP (removelast (segments path)) ++ SEP)%string.

Section Engine.
Context {E : Type} `{Outside E}.
Local Open Scope py_scope.

(** [list_dir]: the iterator is built without a request; the listing is
    requested when the caller iterates. *)
Definition list_dir (root : string) (list_all : bool) : M E (list string) :=
  invoke (ListObjects root (if list_all then "" else SEP))
         (bucket_list_objects root (if list_all then "" else SEP)).

Definition is_exist (remote : string) : M E bool :=
  try_wrap YuiIsExistException
    (let remote := norm_path remote in
     invoke (ObjectExists remote) (bucket_object_exists remote)).

Definition download_single (cbs : callbacks) (rem loc : string) : M E unit :=
  loc_is_dir <- ask (os_path_isdir loc) ;;
  let dest_loc :=
    if loc_is_dir then (loc ++ os_sep ++ last (segments rem) "")%string else loc in
  let dest_loc := (dest_loc ++ (if is_dir rem then os_sep else ""))%string in
  if is_dir rem then
    invoke (Mkdir dest_loc) (os_mkdir dest_loc) ;;
    call_back OnSuccess (on_success cbs)
      [Str "download"; Str rem; Str loc; Str "mkdir"]
  else
    res <- invoke (GetObjectToFile rem dest_loc)
                  (bucket_get_object_to_file rem dest_loc) ;;
    if (400 <=? res)%Z
    then call_back OnError (on_error cbs)
           [Str "download"; Str rem; Str loc; Result res]
    else call_back OnSuccess (on_success cbs)
           [Str "download"; Str rem; Str loc; Result res].

Definition download (remote local : string) (recursive : bool)
    (cbs : callbacks) : M E unit :=
  try_wrap YuiDownloadException
    (cwd <- ask os_getcwd ;;
     let local := abspath cwd local in
     let remote := norm_path remote in
     download_single cbs remote local ;;
     if is_dir remote && recursive then
       subdirs <- list_dir remote true ;;
       for_each subdirs (fun key =>
         let postfix := join SEP (removelast (segments key)) in
         let dest_local := normpath (join SEP [local; postfix]) in
         download_single cbs key dest_local)
     else ret tt).

Definition delete_single (cbs : callbacks) (rem : string) : M E unit :=
  result <- invoke (DeleteObject rem) (bucket_delete_object rem) ;;
  if (400 <=? result)%Z
  then call_back OnError (on_error cbs)
         [Str "delete"; Str rem; PyNone; Result result]
  else call_back OnSuccess (on_success cbs)
         [Str "delete"; Str rem; PyNone; Result result].

Definition delete (remote : string) (recursive : bool) (cbs : callbacks)
    : M E unit :=
  try_wrap YuiDeleteException
    (let remote := norm_path remote in
     if is_dir remote then
       if recursive then
         subdirs <- list_dir remote true ;;
         for_each (rev subdirs) (delete_single cbs)
       else
         raise (YuiText YuiDeleteException
                  "The directory to be deleted is not empty!")
     else delete_single cbs remote).

Definition copy_single (cbs : callbacks) (rem_src rem_dest : string)
    : M E unit :=
  res <- invoke (CopyObject rem_src rem_dest)
                (bucket_copy_object rem_src rem_dest) ;;
  if (400 <=? res)%Z
  then call_back OnError (on_error cbs) [Str rem_src; Str rem_dest; Result res]
  else call_back OnSuccess (on_success cbs)
         [Str "copy"; Str rem_src; Str rem_dest; Result res].

(** The key a descendant [key] of a directory is copied or moved to. *)
Definition new_path (prefix remote_dest key : string) : string :=
  if String.eqb prefix SEP then (remote_dest ++ key)%string
  else replace key prefix remote_dest.

Definition copy (remote_src remote_dest : string) (cbs : callbacks)
    : M E unit :=
  try_wrap YuiCopyException
    (let remote_src := norm_path remote_src in
     let remote_dest := norm_path remote_dest in
     if is_dir remote_src then
       if negb (is_dir remote_dest) then
         raise (YuiText YuiMoveException
                  "destination path should also be a directory")
       else if startswith remote_dest remote_src then
         raise (YuiText YuiCopyException
                  "destination directory is a sub-directory of the source directory")
       else
         let prefix := parent_prefix remote_src in
         subdirs <- list_dir remote_src true ;;
         for_each subdirs (fun key =>
           copy_single cbs key (new_path prefix remote_dest key))
     else
       let remote_dest :=
         if is_dir remote_dest
         then replace remote_src (parent_prefix remote_src) remote_dest
         else remote_dest in
       copy_single cbs remote_src remote_dest).

Definition move_single (cbs : callbacks) (rem_old rem_new : string)
    : M E unit :=
  res <- invoke (CopyObject rem_old rem_new)
                (bucket_copy_object rem_old rem_new) ;;
  (if (400 <=? res)%Z
   then call_back OnError (on_error cbs) [Str rem_old; Str rem_new; Result res]
   else ret tt) ;;
  res <- invoke (DeleteObject rem_old) (bucket_delete_object rem_old) ;;
  if (400 <=? res)%Z
  then call_back OnError (on_error cbs)
         [Str "move"; Str rem_old; Str rem_new; Result res]
  else call_back OnSuccess (on_success cbs)
         [Str "move"; Str rem_old; Str rem_new; Result res].

Definition move (remote_old remote_new : string) (cbs : callbacks)
    : M E unit :=
  try_wrap YuiMoveException
    (let remote_old := norm_path remote_old in
     let remote_new := norm_path remote_new in
     if is_dir remote_old then
       if negb (is_dir remote_new) then
         raise (YuiText YuiMoveException
                  "destination path should also be a directory")
       else if startswith remote_new remote_old then
         raise (YuiText YuiMoveException
                  "destination directory is a sub-directory of the source directory")
       else
         let prefix := parent_prefix remote_old in
         subdirs <- list_dir remote_old true ;;
         for_each subdirs (fun key =>
           move_single cbs key (new_path prefix remote_new key))
     else
       let remote_new :=
         if is_dir remote_new
         then replace remote_old (parent_prefix remote_old) remote_new
         else remote_new in
       move_single cbs remote_old remote_new).

End Engine.

End OssFileManager.

Import OssFileManager.

(** ** [Yui]: the [cd] command *)

Module Console.
Import PyStr PosixPath.

Inductive Fore : Type := RED | GREEN | BLUE | YELLOW.

Definition TAB : string := String (ascii_of_nat 9) "".
Definition NL : string := String (ascii_of_nat 10) "".

(** The state of a [Yui] object that [cd] reads and writes: the manager [fm]
    (its bucket and the log of its calls), [self.root], the [root] entry of
    [self.attrs], the [root] entry of the file [ATTR_FILE], and what was
    printed, one pair of colour and text per [print]. *)
Record Yui (E : Type) : Type := MkYui {
  fm : world E;
  bucket_name : string;
  root : string;
  attrs_root : string;
  attr_file_root : string;
  stdout : list (Fore * string)
}.
Arguments MkYui {E}.
Arguments fm {E} y.
Arguments bucket_name {E} y.
Arguments root {E} y.
Arguments attrs_root {E} y.
Arguments attr_file_root {E} y.
Arguments stdout {E} y.

Section Commands.
Context {E : Type}.

Definition print (c : Fore) (text : string) (y : Yui E) : Yui E :=
  MkYui (fm y) (bucket_name y) (root y) (attrs_root y) (attr_file_root y)
        (stdout y ++ [(c, text)]).

Definition set_root (r : string) (y : Yui E) : Yui E :=
  MkYui (fm y) (bucket_name y) r (attrs_root y) (attr_file_root y) (stdout y).

(** [self.attrs["root"] = self.root] *)
Definition set_attrs_root (y : Yui E) : Yui E :=
  MkYui (fm y) (bucket_name y) (root y) (root y) (attr_file_root y) (stdout y).

(** [update_attr]: the attributes are dumped to [ATTR_FILE]. *)
Definition update_attr (y : Yui E) : Yui E :=
  MkYui (fm y) (bucket_name y) (root y) (attrs_root y) (attrs_root y) (stdout y).

Definition basic_info_print (y : Yui E) : Yui E :=
  print BLUE ("bucket@ " ++ bucket_name y ++ TAB ++ "root@ " ++ root y ++ NL)%string y.

(** One turn of the loop of [cd] over [root_segs]. *)
Definition cd_step (new_root_segs : list string) (seg : string) : list string :=
  if String.eqb seg "." then new_root_segs
  else if String.eqb seg ".." then
    if Nat.ltb 0 (List.length new_root_segs) then removelast new_root_segs
    else new_root_segs
  else new_root_segs ++ [seg].

(** [Yui.cd], the positional arguments being [args]. *)
Definition cd (args : list string) (y : Yui E) : Yui E :=
  let y := basic_info_print y in
  let changed (y : Yui E) : Yui E :=
    let y := update_attr (set_attrs_root y) in
    print GREEN ("current directory changed to: /" ++ root y)%string y in
  match args with
  | [] => changed (set_root "" y)
  | path :: _ =>
      if negb (is_dir path) then print RED "cd path should be a directory" y
      else
        let path := norm_path path in
        let tmp_root :=
          if startswith path SEP then drop 1 path else (root y ++ path)%string in
        let root_segs := split "/" tmp_root in
        let new_root_segs := fold_left cd_step root_segs [] in
        changed (set_root (join SEP new_root_segs) y)
  end.

End Commands.

(** [Yui.on_success] and [Yui.on_error] as callables: both take [method],
    [src], [dest] and [result], so a call with another number of arguments
    raises [TypeError].  What they print is left out. *)
Definition Yui_on_report : callback :=
  fun args => if Nat.eqb (List.length args) 4 then None else Some (Error "TypeError").

Definition Yui_callbacks : callbacks :=
  Callbacks (Some Yui_on_report) (Some Yui_on_report).

End Console.

Import Console.

(** ** A bucket and a file system in memory *)

Module MemBucket.
Import PyStr PosixPath.

(** The objects of the bucket by key, in the order a listing gives them; the
    keys the bucket refuses to copy from or to delete, with the status it
    answers; the directories and the files of the local file system.  The
    bucket answers a request it cannot serve with an error status (404 for a
    missing object), as the engine's tests on [status] expect. *)
Record t : Type := Mem {
  keys : list string;
  denied : list (string * Z);
  dirs : list string;
  files : list string;
  cwd : string
}.

Fixpoint insert_key (k : string) (l : list string) : list string :=
  match l with
  | [] => [k]
  | x :: xs =>
      match String.compare k x with
      | Lt => k :: l
      | Eq => l
      | Gt => x :: insert_key k xs
      end
  end.

Definition remove_key (k : string) (l : list string) : list string :=
  filter (fun x => negb (String.eqb x k)) l.

Definition status_of (k : string) (m : t) : option Z :=
  option_map snd (find (fun p => String.eqb (fst p) k) (denied m)).

(** What a listing shows for [key]: the key, or the common prefix up to the
    first delimiter after [prefix]. *)
Definition shown (prefix delimiter key : string) : string :=
  let rest := drop (String.length prefix) key in
  match delimiter with
  | EmptyString => key
  | _ =>
      match String.index 0 delimiter rest with
      | Some i =>
          (prefix ++ String.substring 0 (i + String.length delimiter) rest)%string
      | None => key
      end
  end.

Fixpoint dedup (l : list string) : list string :=
  match l with
  | x :: ((y :: _) as tl) => if String.eqb x y then dedup tl else x :: dedup tl
  | _ => l
  end.

Definition list_objects (prefix delimiter : string) (m : t)
    : outcome (list string) * t :=
  (Returned (dedup (map (shown prefix delimiter)
                        (filter (fun k => startswith k prefix) (keys m)))), m).

Definition copy_object (src dst : string) (m : t) : outcome Z * t :=
  match status_of src m with
  | Some st => (Returned st, m)
  | None =>
      if str_in src (keys m)
      then (Returned 200%Z,
            Mem (insert_key dst (keys m)) (denied m) (dirs m) (files m) (cwd m))
      else (Returned 404%Z, m)
  end.

Definition delete_object (key : string) (m : t) : outcome Z * t :=
  match status_of key m with
  | Some st => (Returned st, m)
  | None =>
      (Returned 204%Z,
       Mem (remove_key key (keys m)) (denied m) (dirs m) (files m) (cwd m))
  end.

Definition object_exists (key : string) (m : t) : outcome bool * t :=
  (Returned (str_in key (keys m)), m).

(** [posixpath.dirname] of a normalised path *)
Definition dirname (path : string) : string :=
  let d := join "/" (removelast (split "/" path)) in
  if String.eqb d "" && startswith path "/" then "/" else d.

Definition isdir (path : string) (m : t) : bool :=
  str_in (normpath path) (dirs m).

Definition get_object_to_file (key filename : string) (m : t)
    : outcome Z * t :=
  if negb (str_in key (keys m)) then (Returned 404%Z, m)
  else if isdir filename m then (Raised (Error "IsADirectoryError"), m)
  else if negb (isdir (dirname (normpath filename)) m)
       then (Raised (Error "FileNotFoundError"), m)
  else (Returned 200%Z,
        Mem (keys m) (denied m) (dirs m) (normpath filename :: files m) (cwd m)).

Definition mkdir (path : string) (m : t) : outcome unit * t :=
  let p := normpath path in
  if str_in p (dirs m) || str_in p (files m)
  then (Raised (Error "FileExistsError"), m)
  else if negb (isdir (dirname p) m) then (Raised (Error "FileNotFoundError"), m)
  else (Returned tt, Mem (keys m) (denied m) (p :: dirs m) (files m) (cwd m)).

#[global] Instance mem_outside : Outside t := {
  bucket_list_objects := list_objects;
  bucket_copy_object := copy_object;
  bucket_delete_object := delete_object;
  bucket_object_exists := object_exists;
  bucket_get_object_to_file := get_object_to_file;
  os_path_isdir := isdir;
  os_mkdir := mkdir;
  os_getcwd := cwd
}.

(** A bucket holding [ks], beside a file system with the directories [ds]. *)
Definition holding (ks : list string) (ds : list string) : world t :=
  World (Mem (fold_right insert_key [] ks) [] ds [] "/") [].

(** Callbacks that accept what they are given and return. *)
Definition quiet : callbacks :=
  Callbacks (Some (fun _ => None)) (Some (fun _ => None)).

End MemBucket.


(** * Properties *)

Import PyStr PosixPath.

(** ** The log of a run *)

(** The calls of the collaborators among the events [evs], in order. *)
Definition calls_of (evs : list event) : list call :=
  flat_map (fun ev => match ev with Called c => [c] | _ => [] end) evs.

(** The destination keys of the copy requests among [evs], in order. *)
Definition copy_destinations (evs : list event) : list string :=
  flat_map (fun ev => match ev with Called (CopyObject _ d) => [d] | _ => [] end) evs.

(** The keys of the delete requests among [evs], in order. *)
Definition deleted_keys (evs : list event) : list string :=
  flat_map (fun ev => match ev with Called (DeleteObject k) => [k] | _ => [] end) evs.


(** What one copy of [k] to [dest k], answered with status [st], leaves. *)
Definition copy_events (dest : string -> string) (p : string * Z) : list event :=
  let (k, st) := p in
  [Called (CopyObject k (dest k));
   if (400 <=? st)%Z
   then OnError [Str k; Str (dest k); Result st]
   else OnSuccess [Str "copy"; Str k; Str (dest k); Result st]].

(** What one move of [k] to [dest k] leaves, the copy being answered with
    status [st1] and the deletion of [k] with status [st2]. *)
Definition move_events (dest : string -> string) (p : string * (Z * Z)) : list event :=
  let '(k, (st1, st2)) := p in
  Called (CopyObject k (dest k))
  :: (if (400 <=? st1)%Z then [OnError [Str k; Str (dest k); Result st1]] else [])
  ++ [Called (DeleteObject k);
      if (400 <=? st2)%Z
      then OnError [Str "move"; Str k; Str (dest k); Result st2]
      else OnSuccess [Str "move"; Str k; Str (dest k); Result st2]].

Section Assumptions.
Context {E : Type} `{Outside E}.

(** The bucket answers every copy and every delete request with a status:
    these requests complete normally. *)
Definition answers : Prop :=
  (forall src dst e, exists st e', bucket_copy_object src dst e = (Returned st, e'))
  /\ (forall key e, exists st e', bucket_delete_object key e = (Returned st, e')).

(** Both callbacks are given, and they return on whatever they are handed. *)
Definition returns (cbs : callbacks) : Prop :=
  exists f g, on_success cbs = Some f /\ on_error cbs = Some g
              /\ (forall a, f a = None) /\ (forall a, g a = None).

End Assumptions.

(** ** Scenarios *)

(** The bucket of the move scenario: three objects under [x/]; the local
    directory [/tmp/d] exists. *)
Definition bucket_x : world MemBucket.t :=
  MemBucket.holding ["x/a.txt"; "x/b/"; "x/b/c.txt"] ["/"; "/tmp"; "/tmp/d"].

(** The same bucket, refusing with status 403 to copy or delete [x/b/]. *)
Definition bucket_x_denied : world MemBucket.t :=
  World (MemBucket.Mem ["x/a.txt"; "x/b/"; "x/b/c.txt"] [("x/b/", 403%Z)]
           ["/"; "/tmp"; "/tmp/d"] [] "/") [].


(** The bucket holds [p/x/a.txt]; the local directory [/tmp/d] exists. *)
Definition bucket_nested : world MemBucket.t :=
  MemBucket.holding ["p/x/a.txt"] ["/"; "/tmp"; "/tmp/d"].

(** ** The shape of a normalised path *)

(** No character of [s] is the separator. *)
Fixpoint no_slash (s : string) : Prop :=
  match s with
  | EmptyString => True
  | String c s' => c <> "/"%char /\ no_slash s'
  end.

(** A component that [normpath] keeps as a name: not empty, not [.], and
    without a separator. *)
Definition plain (c : string) : Prop := c <> "" /\ c <> "." /\ no_slash c.

(** Every [..] of the list is preceded by [..] only, and there is none when
    the path is absolute. *)
Definition dots_first (k : nat) (l : list string) : Prop :=
  forall a b, l = a ++ ".." :: b -> k = 0 /\ Forall (eq "..") a.

(** What [normpath] returns for [k] leading slashes and the components
    [comps]. *)
Definition out (k : nat) (comps : list string) : string :=
  let p := (repeat_str "/" k ++ join "/" comps)%string in
  if String.eqb p "" then "." else p.

(** ** What [strip] leaves, what [cd] takes *)

(** The first character of [s], if any, is not one that [f] strips. *)
Definition starts_kept (f : ascii -> bool) (s : string) : Prop :=
  match s with
  | EmptyString => True
  | String c _ => f c = false
  end.

(** [cd] goes through with these arguments: none, or a first one that is
    directory-shaped. *)
Definition cd_accepts (args : list string) : Prop :=
  match args with
  | [] => True
  | path :: _ => is_dir path = true
  end.

(** A segment that [cd] keeps. *)
Definition kept_segment (seg : string) : Prop :=
  seg <> "." /\ seg <> ".." /\ no_slash seg.

(** ** More on the log *)

(** The local path [download_single] writes to or creates. *)
Definition dest_loc {E : Type} `{Outside E} (e : E) (rem loc : string) : string :=
  ((if os_path_isdir loc e
    then loc ++ os_sep ++ last (segments rem) ""
    else loc) ++ (if is_dir rem then os_sep else ""))%string.

(** An event is a report to a callback or a call among those [ok] admits. *)
Definition only_calls (ok : call -> bool) (ev : event) : Prop :=
  match ev with
  | Called c => ok c = true
  | _ => True
  end.

(** The calls of each operation. *)
Definition copy_calls (c : call) : bool :=
  match c with ListObjects _ _ | CopyObject _ _ => true | _ => false end.
Definition delete_calls (c : call) : bool :=
  match c with ListObjects _ _ | DeleteObject _ => true | _ => false end.
Definition move_calls (c : call) : bool :=
  match c with ListObjects _ _ | CopyObject _ _ | DeleteObject _ => true | _ => false end.
Definition download_calls (c : call) : bool :=
  match c with ListObjects _ _ | GetObjectToFile _ _ | Mkdir _ => true | _ => false end.

(** The source keys of the copy requests among [evs], in order. *)
Definition copy_sources (evs : list event) : list string :=
  flat_map (fun ev => match ev with Called (CopyObject s _) => [s] | _ => [] end) evs.

(** Whatever the world, [c] leaves the log as it was and adds events that
    all satisfy [P]. *)
Definition appends {E A : Type} (P : event -> Prop) (c : M E A) : Prop :=
  forall w, exists evs, log (snd (c w)) = log w ++ evs /\ Forall P evs.

(** Every object a copy was asked for has been asked to be deleted. *)
Definition settled (evs : list event) : Prop :=
  copy_sources evs = deleted_keys evs.

(** The last object a copy was asked for has not been asked to be deleted;
    every one before has. *)
Definition pending (evs : list event) : Prop :=
  exists k, copy_sources evs = deleted_keys evs ++ [k].

(** ** More scenarios *)

(** A bucket with one object at its top. *)
Definition bucket_top : world MemBucket.t := MemBucket.holding ["a.txt"] ["/"].

(** The state of [Yui] in the directory [x/] of the scenario. *)
Definition yui_in_x : Yui MemBucket.t := MkYui bucket_x "bkt" "x/" "x/" "x/" [].

(** ** [binascii] and [base64], and the digest conversions of the manager

    [md5_to_base64] and [base64_to_md5] are static methods of
    [OssFileManager]; they stand here with the library functions they are
    made of. *)

Module Digests.

(** Both [binascii.a2b_hex] and [binascii.a2b_base64] raise
    [binascii.Error]. *)
Definition binascii_Error : exn := Error "binascii.Error".

(** [str.encode()], UTF-8, one character (a code point below 256). *)
Definition utf8 (c : ascii) : list ascii :=
  let n := N_of_ascii c in
  if (n <? 128)%N then [c]
  else [ascii_of_N (192 + N.shiftr n 6); ascii_of_N (128 + N.land n 63)].

(** [s.encode()] *)
Definition encode (s : string) : list ascii :=
  flat_map utf8 (list_ascii_of_string s).

(** The value of a hexadecimal digit, in either case. *)
Definition digit_value (c : ascii) : option N :=
  let n := N_of_ascii c in
  if ((48 <=? n) && (n <=? 57))%N then Some (n - 48)%N
  else if ((97 <=? n) && (n <=? 102))%N then Some (n - 87)%N
  else if ((65 <=? n) && (n <=? 70))%N then Some (n - 55)%N
  else None.

Fixpoint a2b_hex_pairs (data : list ascii) : outcome (list ascii) :=
  match data with
  | [] => Returned []
  | top :: bot :: rest =>
      match digit_value top, digit_value bot with
      | Some t, Some b =>
          match a2b_hex_pairs rest with
          | Returned bs => Returned (ascii_of_N (N.shiftl t 4 + b) :: bs)
          | Raised e => Raised e
          end
      | _, _ => Raised binascii_Error
      end
  | [_] => Raised binascii_Error
  end.

(** [binascii.a2b_hex(data)] *)
Definition a2b_hex (data : list ascii) : outcome (list ascii) :=
  if Nat.even (List.length data) then a2b_hex_pairs data
  else Raised binascii_Error.

Definition hex_digit (n : N) : ascii :=
  nth (N.to_nat n) (list_ascii_of_string "0123456789abcdef") "0"%char.

(** [binascii.b2a_hex(data).decode()]: the digits are ASCII, the text read
    from them has the same characters. *)
Fixpoint b2a_hex (data : list ascii) : string :=
  match data with
  | [] => ""
  | c :: rest =>
      String (hex_digit (N.shiftr (N_of_ascii c) 4))
        (String (hex_digit (N.land (N_of_ascii c) 15)) (b2a_hex rest))
  end.

Definition alphabet : list ascii :=
  list_ascii_of_string
    "ABCDEFGHIJKLMNOPQRSTUVWXYZabcdefghijklmnopqrstuvwxyz0123456789+/".

(** [table_b2a_base64] *)
Definition table_b2a (n : N) : ascii := nth (N.to_nat n) alphabet "A"%char.

Fixpoint index_of (c : ascii) (l : list ascii) (i : N) : option N :=
  match l with
  | [] => None
  | x :: xs => if Ascii.eqb x c then Some i else index_of c xs (i + 1)%N
  end.

(** [table_a2b_base64]: the value of a character of the alphabet. *)
Definition table_a2b (c : ascii) : option N := index_of c alphabet 0%N.

Definition PAD : ascii := "="%char.

(** [base64.b64encode(data).decode()]: three bytes give four characters,
    the last group is padded. *)
Fixpoint b64encode (data : list ascii) : string :=
  match data with
  | [] => ""
  | [a] =>
      let a := N_of_ascii a in
      String (table_b2a (N.shiftr a 2))
        (String (table_b2a (N.shiftl (N.land a 3) 4))
           (String PAD (String PAD "")))
  | [a; b] =>
      let a := N_of_ascii a in
      let b := N_of_ascii b in
      String (table_b2a (N.shiftr a 2))
        (String (table_b2a (N.lor (N.shiftl (N.land a 3) 4) (N.shiftr b 4)))
           (String (table_b2a (N.shiftl (N.land b 15) 2))
              (String PAD "")))
  | a :: b :: c :: rest =>
      let a := N_of_ascii a in
      let b := N_of_ascii b in
      let c := N_of_ascii c in
      String (table_b2a (N.shiftr a 2))
        (String (table_b2a (N.lor (N.shiftl (N.land a 3) 4) (N.shiftr b 4)))
           (String (table_b2a (N.lor (N.shiftl (N.land b 15) 2) (N.shiftr c 6)))
              (String (table_b2a (N.land c 63)) (b64encode rest))))
  end.

(** The loop of [binascii.a2b_base64] when it is not strict, as
    [base64.b64decode] calls it: characters outside the alphabet are
    skipped; padding after two or three characters of a group ends the
    input; a group left unfinished is an error. *)
Fixpoint a2b_base64_loop (data : list ascii) (quad_pos : nat) (leftchar : N)
    (pads : nat) (bin_data : list ascii) : outcome (list ascii) :=
  match data with
  | [] =>
      if Nat.eqb quad_pos 0 then Returned bin_data else Raised binascii_Error
  | this_ch :: rest =>
      if Ascii.eqb this_ch PAD then
        if Nat.leb 2 quad_pos && Nat.leb 4 (quad_pos + (pads + 1))
        then Returned bin_data
        else a2b_base64_loop rest quad_pos leftchar
               (if Nat.leb 2 quad_pos then pads + 1 else pads) bin_data
      else
        match table_a2b this_ch with
        | None => a2b_base64_loop rest quad_pos leftchar pads bin_data
        | Some v =>
            match quad_pos with
            | 0 => a2b_base64_loop rest 1 v 0 bin_data
            | 1 =>
                a2b_base64_loop rest 2 (N.land v 15) 0
                  (bin_data ++ [ascii_of_N (N.lor (N.shiftl leftchar 2) (N.shiftr v 4))])
            | 2 =>
                a2b_base64_loop rest 3 (N.land v 3) 0
                  (bin_data ++ [ascii_of_N (N.lor (N.shiftl leftchar 4) (N.shiftr v 2))])
            | _ =>
                a2b_base64_loop rest 0 0 0
                  (bin_data ++ [ascii_of_N (N.lor (N.shiftl leftchar 6) v)])
            end
        end
  end.

(** [base64.b64decode(data)] *)
Definition b64decode (data : list ascii) : outcome (list ascii) :=
  a2b_base64_loop data 0 0 0 [].

(** [OssFileManager.md5_to_base64] *)
Definition md5_to_base64 (md5_str : string) : outcome string :=
  match a2b_hex (encode md5_str) with
  | Returned digest => Returned (b64encode digest)
  | Raised e => Raised e
  end.

(** [OssFileManager.base64_to_md5] *)
Definition base64_to_md5 (b64 : string) : outcome string :=
  match b64decode (encode b64) with
  | Returned digest => Returned (b2a_hex digest)
  | Raised e => Raised e
  end.

(** A hexadecimal digit. *)
Definition is_hex (c : ascii) : bool :=
  match digit_value c with Some _ => true | None => false end.

(** [c.lower()] on a hexadecimal digit. *)
Definition lower (c : ascii) : ascii :=
  let n := N_of_ascii c in
  if ((65 <=? n) && (n <=? 70))%N then ascii_of_N (n + 32) else c.

Fixpoint map_string (f : ascii -> ascii) (s : string) : string :=
  match s with
  | EmptyString => EmptyString
  | String c r => String (f c) (map_string f r)
  end.

(** Hexadecimal digits, an even number of them. *)
Definition hex_text (s : string) : bool :=
  Nat.even (String.length s) && forallb is_hex (list_ascii_of_string s).

End Digests.

Import Digests.

(** All characters, all values of six bits: a property that can be computed
    is checked on each of them. *)
Definition all_ascii : list ascii := map ascii_of_nat (seq 0 256).


Definition sextets : list N := map N.of_nat (seq 0 64).


(** Every character of [s] is below 128. *)
Definition ascii_text (s : string) : Prop :=
  Forall (fun c => (N_of_ascii c <? 128)%N = true) (list_ascii_of_string s).


(** The four values a group of three bytes [a], [b], [c] is written with,
    and the last value of a group of one or two bytes. *)
Section Sextets.
Variables a b c : ascii.

Definition sextet1 : N := N.shiftr (N_of_ascii a) 2.
Definition sextet2 : N := N.lor (N.shiftl (N.land (N_of_ascii a) 3) 4) (N.shiftr (N_of_ascii b) 4).
Definition sextet2_last : N := N.shiftl (N.land (N_of_ascii a) 3) 4.
Definition sextet3 : N := N.lor (N.shiftl (N.land (N_of_ascii b) 15) 2) (N.shiftr (N_of_ascii c) 6).
Definition sextet3_last : N := N.shiftl (N.land (N_of_ascii b) 15) 2.
Definition sextet4 : N := N.land (N_of_ascii c) 63.
End Sextets.

(** ** [OssFileManager]: [upload] and [get_md5] *)

Module Transfers.

(** The requests of [upload] and [get_md5] to the bucket.  They are kept in
    a list of their own, beside the state of the collaborators. *)
Inductive request : Type :=
| PutObject (key data content_md5 : string)
| PutObjectFromFile (key filename content_md5 : string)
| HeadObject (key : string).

(** What [upload] and [get_md5] use beyond [Outside]: the bucket's
    [put_object], [put_object_from_file] and [head_object] (of the answer,
    the [Content-MD5] header when there is one, and the etag), [os.listdir],
    and [utils.file_md5], which is not part of the sources at hand. *)
Class Store (E : Type) : Type := {
  bucket_put_object : string -> string -> string -> E -> outcome Z * E;
  bucket_put_object_from_file : string -> string -> string -> E -> outcome Z * E;
  bucket_head_object : string -> E -> outcome (option string * string) * E;
  os_listdir : string -> E -> outcome (list string);
  utils_file_md5 : string -> E -> outcome string
}.

Definition LOCAL_DIR_CONTENT : string := "$DIR$".

(** [os.path.split(path)[-1]] *)
Definition basename (path : string) : string := last (split "/" path) "".

Section Engine.
Context {E : Type} `{Outside E} `{Store E}.
(** [utils.content_md5(LOCAL_DIR_CONTENT)]; [utils] is not part of the
    sources at hand. *)
Variable LOCAL_DIR_CONTENT_MD5 : string.
Local Open Scope py_scope.

(** A request: written to the list of requests, then answered. *)
Definition send {A} (r : request) (f : E -> outcome A * E)
    : M (E * list request) A :=
  fun w =>
    let (res, e') := f (fst (outside w)) in
    (res, World (e', snd (outside w) ++ [r]) (log w)).

(** A call that returns or raises and changes nothing. *)
Definition attempt {S A} (r : outcome A) : M S A := fun w => (r, w).

(** [OssFileManager.upload]; [depth] is what is left of the interpreter's
    recursion limit. *)
Fixpoint upload (depth : nat) (local remote : string) (recursive : bool)
    (cbs : callbacks) : M (E * list request) unit :=
  match depth with
  | O => raise (Error "RecursionError")
  | S depth =>
      try_wrap YuiUploadException
        (cwd <- ask (fun s => os_getcwd (fst s)) ;;
         let local := abspath cwd local in
         let remote := norm_path remote in
         let dest_remote :=
           if is_dir remote then (remote ++ basename local)%string else remote in
         local_is_dir <- ask (fun s => os_path_isdir local (fst s)) ;;
         let dest_remote :=
           (dest_remote ++ (if local_is_dir then SEP else ""))%string in
         result <-
           (if local_is_dir then
              if negb (is_dir dest_remote) then
                raise (YuiText YuiUploadException "remote path should be a directory")
              else
                md5_b64 <- attempt (md5_to_base64 LOCAL_DIR_CONTENT_MD5) ;;
                result <- send (PutObject dest_remote LOCAL_DIR_CONTENT md5_b64)
                            (bucket_put_object dest_remote LOCAL_DIR_CONTENT md5_b64) ;;
                (if recursive then
                   subdirs <- (fun w => (os_listdir local (fst (outside w)), w)) ;;
                   for_each subdirs (fun subdir =>
                     upload depth (path_join local subdir) dest_remote true cbs)
                 else ret tt) ;;
                ret result
            else
              md5 <- (fun w => (utils_file_md5 local (fst (outside w)), w)) ;;
              md5_b64 <- attempt (md5_to_base64 md5) ;;
              send (PutObjectFromFile dest_remote local md5_b64)
                (bucket_put_object_from_file dest_remote local md5_b64)) ;;
         if (400 <=? result)%Z
         then call_back OnError (on_error cbs)
                [Str "upload"; Str local; Str remote; Result result]
         else call_back OnSuccess (on_success cbs)
                [Str "upload"; Str local; Str remote; Result result])
  end.

(** [OssFileManager.get_md5] *)
Definition get_md5 (remote : string) : M (E * list request) string :=
  try_wrap YuiGetMD5Exception
    (let remote := norm_path remote in
     head <- send (HeadObject remote) (bucket_head_object remote) ;;
     match fst head with
     | Some content_md5 => attempt (base64_to_md5 content_md5)
     | None => ret (snd head)
     end).

End Engine.

End Transfers.

(** ** The bucket in memory, with headers, beside local files *)

Module MemStore.
Import Transfers.

(** The bucket and the directories of [MemBucket]; the [Content-MD5] header
    of the objects that have one; the names in the local directories; the
    digests of the local files, as [utils.file_md5] gives them. *)
Record t : Type := Store {
  base : MemBucket.t;
  content_md5 : list (string * string);
  children : list (string * list string);
  digests : list (string * string)
}.

Definition lookup {A : Type} (k : string) (l : list (string * A)) : option A :=
  option_map snd (find (fun p => String.eqb (fst p) k) l).

Definition on_base {A : Type} (f : MemBucket.t -> outcome A * MemBucket.t)
    (s : t) : outcome A * t :=
  let (r, m) := f (base s) in
  (r, Store m (content_md5 s) (children s) (digests s)).

#[global] Instance store_outside : Outside t := {
  bucket_list_objects p d := on_base (MemBucket.list_objects p d);
  bucket_copy_object src dst := on_base (MemBucket.copy_object src dst);
  bucket_delete_object k := on_base (MemBucket.delete_object k);
  bucket_object_exists k := on_base (MemBucket.object_exists k);
  bucket_get_object_to_file k f := on_base (MemBucket.get_object_to_file k f);
  os_path_isdir p s := MemBucket.isdir p (base s);
  os_mkdir p := on_base (MemBucket.mkdir p);
  os_getcwd s := MemBucket.cwd (base s)
}.

(** A put: the object is there afterwards, with its header. *)
Definition put (key header : string) (s : t) : outcome Z * t :=
  let m := base s in
  (Returned 200%Z,
   Store (MemBucket.Mem (MemBucket.insert_key key (MemBucket.keys m))
            (MemBucket.denied m) (MemBucket.dirs m) (MemBucket.files m)
            (MemBucket.cwd m))
         ((key, header) :: content_md5 s) (children s) (digests s)).

Definition head_object (key : string) (s : t)
    : outcome (option string * string) * t :=
  if str_in key (MemBucket.keys (base s))
  then (Returned (lookup key (content_md5 s), "0"), s)
  else (Raised (Error "NoSuchKey"), s).

Definition listdir (path : string) (s : t) : outcome (list string) :=
  match lookup path (children s) with
  | Some names => Returned names
  | None => Raised (Error "FileNotFoundError")
  end.

Definition file_md5 (path : string) (s : t) : outcome string :=
  match lookup path (digests s) with
  | Some md5 => Returned md5
  | None => Raised (Error "FileNotFoundError")
  end.

#[global] Instance store : Transfers.Store t := {
  bucket_put_object key _ header := put key header;
  bucket_put_object_from_file key _ header := put key header;
  bucket_head_object := head_object;
  os_listdir := listdir;
  utils_file_md5 := file_md5
}.

End MemStore.

(** ** Uploads *)

Import Transfers.

(** What [upload] reports of one put answered with status [st]. *)
Definition upload_event (local remote : string) (st : Z) : event :=
  if (400 <=? st)%Z
  then OnError [Str "upload"; Str local; Str remote; Result st]
  else OnSuccess [Str "upload"; Str local; Str remote; Result st].

Definition is_put (r : request) : Prop :=
  match r with HeadObject _ => False | _ => True end.

Definition is_report (ev : event) : Prop :=
  match ev with Called _ => False | _ => True end.

Section Files.
Context {E : Type} `{Outside E} `{Transfers.Store E}.

(** The local file system is in [e'] what it is in [e]. *)
Definition same_files (e e' : E) : Prop :=
  os_getcwd e' = os_getcwd e
  /\ forall p, os_path_isdir p e' = os_path_isdir p e
               /\ os_listdir p e' = os_listdir p e
               /\ utils_file_md5 p e' = utils_file_md5 p e.

(** The bucket answers every put with a status, and a put leaves the local
    file system as it is. *)
Definition puts_answered : Prop :=
  (forall key data h e, exists st e',
      bucket_put_object key data h e = (Returned st, e') /\ same_files e e')
  /\ (forall key file h e, exists st e',
      bucket_put_object_from_file key file h e = (Returned st, e')
      /\ same_files e e').

End Files.

(** A name in a directory: a component that is kept and is not [..]. *)
Definition named (c : string) : Prop := plain c /\ c <> "..".

(** The local directory [/home/d] holds the files [a.txt] and [b.txt]; the
    bucket is empty. *)
Definition home_d : world (MemStore.t * list request) :=
  World (MemStore.Store (MemBucket.Mem [] [] ["/"; "/home"; "/home/d"] [] "/home")
           []
           [("/home/d", ["a.txt"; "b.txt"])]
           [("/home/d/a.txt", "0cc175b9c0f1b6a831c399e269772661");
            ("/home/d/b.txt", "92eb5ffee6ae2fec3ad71c777531578f")],
         []) [].

(** The MD5 digest of [LOCAL_DIR_CONTENT], in hexadecimal. *)
Definition dir_md5 : string := "a8192f5319500e968503f82ae63cc4ba".

(** From [w] to [w'], puts only have been sent and reports only have been
    made, as many of the ones as of the others. *)
Definition reported {E : Type} (w w' : world (E * list request)) : Prop :=
  exists rs evs,
    snd (outside w') = snd (outside w) ++ rs
    /\ log w' = log w ++ evs
    /\ Forall is_put rs /\ Forall is_report evs
    /\ List.length rs = List.length evs.

(** ** [Yui]: the [ls] command *)

Module Listing.

(** [str(n)] *)
Definition decimal (n : nat) : string :=
  DecimalString.NilEmpty.string_of_uint (Nat.to_uint n).

Section Commands.
Context {E : Type} `{Outside E}.

Definition set_fm (w : world E) (y : Yui E) : Yui E :=
  MkYui w (bucket_name y) (root y) (attrs_root y) (attr_file_root y) (stdout y).

(** [Yui.ls], [all] being [self.args.all]: nothing catches what the listing
    raises. *)
Definition ls (all : bool) (y : Yui E) : outcome unit * Yui E :=
  let y := basic_info_print y in
  match list_dir (root y) all (fm y) with
  | (Raised e, w) => (Raised e, set_fm w y)
  | (Returned keys, w) =>
      let files :=
        map (fun key => replace key (root y) "")
          (filter (fun key => negb (String.eqb key (root y))) keys) in
      (Returned tt,
       if Nat.ltb 0 (List.length files)
       then print GREEN
              ("listing " ++ decimal (List.length files) ++ " files in /" ++ root y
               ++ ":" ++ NL ++ join TAB files)%string (set_fm w y)
       else print YELLOW
              ("current directory: /" ++ root y ++ " is empty.")%string (set_fm w y))
  end.

End Commands.

End Listing.

Import Listing.

(** In the directory [a/], which holds a directory whose name ends like its
    own. *)
Definition yui_in_a : Yui MemBucket.t :=
  MkYui (MemBucket.holding ["a/"; "a/xa/"; "a/xa/g.txt"] ["/"])
    "bkt" "a/" "a/" "a/" [].

(** In the directory [d/], which holds two files. *)
Definition yui_in_d : Yui MemBucket.t :=
  MkYui (MemBucket.holding ["d/"; "d/a.txt"; "d/b.txt"] ["/"]) "bkt" "d/" "d/" "d/" [].

(** ** Strings, components and [normpath] *)

(** The model of [normpath] on some paths, with the results of the
    library. *)
Example normpath_examples :
  map normpath
    [""; "."; "a/.."; "./"; "/"; "//"; "///"; "x/y/../"; " a/b "; "./ a";
     "a/b/../../.."; "/../a"; "//a//b/"; "//."; "../../a/.."; "//..";
     "///a/../.."; "a/./b/../../../c"]
  = ["."; "."; "."; "."; "/"; "//"; "/"; "x"; " a/b "; " a";
     ".."; "/a"; "//a/b"; "//"; "../.."; "//";
     "/"; "../c"].
Proof. reflexivity. Qed.

(** [strip] removes white space at both ends, [strip_char] the given
    character; [split] and [replace] are those of Python. *)
Example string_examples :
  strip "  a b " = "a b"
  /\ strip_char "/" "//x/y//" = "x/y"
  /\ split "/" "x/y/../" = ["x"; "y"; ".."; ""]
  /\ split "/" "" = [""]
  /\ replace "p/x/p/a" "p/" "y/" = "y/x/y/a"
  /\ replace "abc" "" "-" = "-a-b-c-".
Proof. repeat split; reflexivity. Qed.

Lemma append_empty_r (s : string) : (s ++ "")%string = s.
Proof. induction s as [|c s IH]; simpl; [reflexivity | now rewrite IH]. Qed.

Lemma append_assoc (a b c : string) : ((a ++ b) ++ c = a ++ (b ++ c))%string.
Proof. induction a as [|x a IH]; simpl; [reflexivity | now rewrite IH]. Qed.

(** Replacing the separator by itself changes nothing. *)
Lemma replace_sep_sep (s : string) : replace s "/" "/" = s.
Proof.
  unfold replace; induction s as [|c s IH]; [reflexivity |].
  cbn [replace_from String.prefix].
  destruct (ascii_dec "/" c) as [<- | Hc].
  - change (String.length "/" - 1) with 0; rewrite IH.
    destruct s; reflexivity.
  - now rewrite IH.
Qed.

Lemma split_nonempty (sep : ascii) (s : string) : split sep s <> [].
Proof.
  induction s as [|c s IH]; simpl; [discriminate |].
  destruct (Ascii.eqb c sep); [discriminate |].
  destruct (split sep s); [contradiction | discriminate].
Qed.

Lemma split_no_slash (s : string) : Forall no_slash (split "/" s).
Proof.
  induction s as [|c s IH]; simpl; [repeat constructor |].
  destruct (Ascii.eqb_spec c "/") as [-> | Hc].
  - constructor; [exact I | assumption].
  - destruct (split "/" s) as [|w ws]; [repeat constructor; assumption |].
    inversion IH; subst; constructor; [split |]; assumption.
Qed.

Lemma split_no_slash_one (s : string) : no_slash s -> split "/" s = [s].
Proof.
  induction s as [|c s IH]; simpl; [reflexivity |].
  intros [Hc Hs]; destruct (Ascii.eqb_spec c "/") as [-> | _]; [contradiction |].
  now rewrite IH.
Qed.

Lemma split_app_sep (a b : string) :
  no_slash a -> split "/" (a ++ String "/" b) = a :: split "/" b.
Proof.
  induction a as [|c a IH]; simpl; [reflexivity |].
  intros [Hc Ha]; destruct (Ascii.eqb_spec c "/") as [-> | _]; [contradiction |].
  now rewrite IH.
Qed.

Lemma split_sep_cons (s : string) : split "/" (String "/" s) = "" :: split "/" s.
Proof. reflexivity. Qed.

Lemma split_snoc_sep (s : string) : split "/" (s ++ "/") = split "/" s ++ [""].
Proof.
  induction s as [|c s IH]; [reflexivity |].
  simpl; destruct (Ascii.eqb c "/"); rewrite IH; [reflexivity |].
  pose proof (split_nonempty "/" s) as Hne.
  destruct (split "/" s); [contradiction | reflexivity].
Qed.

Lemma split_join (l : list string) :
  l <> [] -> Forall no_slash l -> split "/" (join "/" l) = l.
Proof.
  induction l as [|x l IH]; [contradiction |]; intros _ Hl.
  inversion Hl as [|? ? Hx Hl']; subst.
  destruct l as [|y l].
  - simpl; now apply split_no_slash_one.
  - change (join "/" (x :: y :: l)) with (x ++ String "/" (join "/" (y :: l)))%string.
    rewrite split_app_sep by assumption.
    rewrite IH; [reflexivity | discriminate | assumption].
Qed.

(** *** The component loop of [normpath] *)

Lemma snoc_split {A} (acc a b : list A) (x y : A) :
  acc ++ [x] = a ++ y :: b ->
  (b = [] /\ a = acc /\ x = y) \/ (exists b', b = b' ++ [x] /\ acc = a ++ y :: b').
Proof.
  destruct b as [|z b] using rev_ind; intros Heq.
  - apply app_inj_tail in Heq as [-> ->]; left; auto.
  - clear IHb; right; exists b.
    change (a ++ y :: b ++ [z]) with (a ++ (y :: b) ++ [z]) in Heq.
    rewrite app_assoc in Heq.
    apply app_inj_tail in Heq as [-> ->]; auto.
Qed.

Lemma removelast_split {A} (acc a b : list A) (y : A) :
  removelast acc = a ++ y :: b -> exists z, acc = a ++ y :: b ++ [z].
Proof.
  destruct acc as [|z acc] using rev_ind; intros Heq.
  - simpl in Heq; destruct a; discriminate.
  - rewrite removelast_last in Heq; subst acc; exists z.
    now rewrite <- app_assoc.
Qed.

Lemma dots_first_nil k : dots_first k [].
Proof. intros a b Heq; destruct a; discriminate. Qed.

Lemma str_in_skip (c : string) :
  str_in c [""; "."] = false <-> c <> "" /\ c <> ".".
Proof.
  unfold str_in; simpl.
  destruct (String.eqb_spec c ""), (String.eqb_spec c "."); simpl;
    intuition congruence.
Qed.

Lemma step_invariant k acc comp :
  no_slash comp -> Forall plain acc -> dots_first k acc ->
  Forall plain (normpath_step k acc comp) /\ dots_first k (normpath_step k acc comp).
Proof.
  intros Hns Hacc Hdots; unfold normpath_step.
  destruct (str_in comp [""; "."]) eqn:Hskip; [auto |].
  apply str_in_skip in Hskip as [Hne Hnd].
  assert (Hplain : Forall plain (acc ++ [comp])).
  { apply Forall_app; split; [assumption |]; repeat constructor; assumption. }
  destruct (String.eqb_spec comp "..") as [-> | Hdd]; cbn [negb orb].
  - destruct (Nat.eqb k 0 && Nat.eqb (List.length acc) 0
              || negb (Nat.eqb (List.length acc) 0) && String.eqb (last acc "") "..") eqn:Hc.
    + split; [assumption |].
      intros a b Heq; apply snoc_split in Heq as [(-> & -> & _) | (b' & -> & ->)].
      * apply orb_true_iff in Hc as [Hc | Hc]; apply andb_true_iff in Hc as [H1 H2].
        -- apply Nat.eqb_eq in H1, H2; apply length_zero_iff_nil in H2; subst.
           split; [reflexivity | constructor].
        -- apply String.eqb_eq in H2.
           destruct acc as [|z acc] using rev_ind; [discriminate H1 |].
           rewrite last_last in H2; subst z.
           destruct (Hdots acc [] eq_refl) as [-> Hall].
           split; [reflexivity |]; apply Forall_app; split; [assumption | repeat constructor].
      * apply (Hdots a b' eq_refl).
    + split.
      * destruct acc as [|z acc] using rev_ind; [constructor |].
        rewrite removelast_last; apply Forall_app in Hacc; tauto.
      * intros a b Heq; apply removelast_split in Heq as [z ->].
        apply (Hdots a (b ++ [z]) eq_refl).
  - split; [assumption |].
    intros a b Heq; apply snoc_split in Heq as [(_ & _ & ->) | (b' & -> & ->)];
      [contradiction | apply (Hdots a b' eq_refl)].
Qed.

Lemma fold_invariant k comps : forall acc,
  Forall no_slash comps -> Forall plain acc -> dots_first k acc ->
  Forall plain (fold_left (normpath_step k) comps acc)
  /\ dots_first k (fold_left (normpath_step k) comps acc).
Proof.
  induction comps as [|c comps IH]; intros acc Hns Hacc Hdots; [auto |].
  inversion Hns as [|? ? Hc Hcomps]; subst; simpl.
  destruct (step_invariant k acc c) as [Hp Hd]; auto.
Qed.

(** The loop leaves a list of kept components as it is. *)
Lemma fold_fixed k xs : forall acc,
  Forall plain xs -> dots_first k (acc ++ xs) ->
  fold_left (normpath_step k) xs acc = acc ++ xs.
Proof.
  induction xs as [|x xs IH]; intros acc Hxs Hdots; simpl; [now rewrite app_nil_r |].
  inversion Hxs as [|? ? (Hne & Hnd & Hns) Hxs']; subst.
  assert (Hstep : normpath_step k acc x = acc ++ [x]).
  { unfold normpath_step.
    replace (str_in x [""; "."]) with false by (symmetry; now apply str_in_skip).
    destruct (String.eqb_spec x "..") as [-> | Hdd]; cbn [negb orb]; [| reflexivity].
    destruct (Hdots acc xs eq_refl) as [-> Hall].
    destruct acc as [|z acc] using rev_ind; [reflexivity |].
    apply Forall_app in Hall as [_ Hz]; inversion Hz; subst.
    rewrite last_last, length_app; simpl.
    replace (Nat.eqb (List.length acc + 1) 0) with false
      by (symmetry; apply Nat.eqb_neq; lia).
    reflexivity. }
  rewrite Hstep, IH; [now rewrite <- app_assoc | assumption |].
  now rewrite <- app_assoc.
Qed.

Lemma fold_skip_empty k n xs acc :
  fold_left (normpath_step k) (repeat "" n ++ xs) acc
  = fold_left (normpath_step k) xs acc.
Proof. induction n as [|n IH]; simpl; [reflexivity | exact IH]. Qed.

Lemma split_slashes n s :
  split "/" (repeat_str "/" n ++ s) = repeat "" n ++ split "/" s.
Proof. induction n as [|n IH]; simpl; [reflexivity | now rewrite IH]. Qed.

(** *** [normpath] on its own results *)

Lemma initial_slashes_le (s : string) : initial_slashes s <= 2.
Proof.
  unfold initial_slashes.
  destruct (startswith s "/"); [| lia].
  destruct (startswith s "//" && negb (startswith s "///")); lia.
Qed.

Lemma initial_slashes_head k c r :
  k <= 2 -> c <> "/"%char ->
  initial_slashes (repeat_str "/" k ++ String c r) = k.
Proof.
  intros Hk Hc.
  assert (Hk' : k = 0 \/ k = 1 \/ k = 2) by lia.
  destruct Hk' as [-> | [-> | ->]]; unfold initial_slashes, startswith;
    cbn -[ascii_dec];
    repeat (destruct (ascii_dec _ _); try congruence; cbn -[ascii_dec]);
    reflexivity.
Qed.

Lemma join_head (comps : list string) :
  comps <> [] -> Forall plain comps ->
  exists c r, join "/" comps = String c r /\ c <> "/"%char.
Proof.
  destruct comps as [|x l]; [contradiction |]; intros _ Hall.
  inversion Hall as [|? ? (Hne & _ & Hns) _]; subst.
  destruct x as [|c x]; [contradiction |]; destruct Hns as [Hc _].
  destruct l; simpl; eauto.
Qed.

Lemma plain_no_slash (comps : list string) :
  Forall plain comps -> Forall no_slash comps.
Proof. apply Forall_impl; intros c (_ & _ & Hns); exact Hns. Qed.

Lemma out_nonempty k comps :
  comps <> [] -> Forall plain comps ->
  out k comps = (repeat_str "/" k ++ join "/" comps)%string.
Proof.
  intros Hne Hall; destruct (join_head comps Hne Hall) as (c & r & Hj & _).
  unfold out; rewrite Hj; destruct k; reflexivity.
Qed.

(** The shape of every result of [normpath]. *)
Lemma normpath_shape (s : string) :
  exists k comps,
    k <= 2 /\ Forall plain comps /\ dots_first k comps /\ normpath s = out k comps.
Proof.
  destruct (String.eqb_spec s "") as [-> | Hs].
  - exists 0, []; split; [lia |]; split; [constructor |].
    split; [apply dots_first_nil | reflexivity].
  - exists (initial_slashes s),
           (fold_left (normpath_step (initial_slashes s)) (split "/" s) []).
    destruct (fold_invariant (initial_slashes s) (split "/" s) [])
      as [Hp Hd]; [apply split_no_slash | constructor | apply dots_first_nil |].
    split; [apply initial_slashes_le |]; split; [assumption |].
    split; [assumption |].
    unfold normpath; apply String.eqb_neq in Hs; rewrite Hs; reflexivity.
Qed.

Lemma normpath_unfold (s : string) :
  s <> "" ->
  normpath s
  = out (initial_slashes s)
        (fold_left (normpath_step (initial_slashes s)) (split "/" s) []).
Proof. intros Hs; unfold normpath; apply String.eqb_neq in Hs; now rewrite Hs. Qed.

(** [normpath] is idempotent. *)
Lemma normpath_out k comps :
  k <= 2 -> Forall plain comps -> dots_first k comps ->
  normpath (out k comps) = out k comps.
Proof.
  intros Hk Hall Hdots; destruct comps as [|x l].
  - assert (Hk' : k = 0 \/ k = 1 \/ k = 2) by lia.
    destruct Hk' as [-> | [-> | ->]]; reflexivity.
  - assert (Hne : x :: l <> []) by discriminate.
    destruct (join_head _ Hne Hall) as (c & r & Hj & Hc).
    rewrite out_nonempty by assumption.
    rewrite normpath_unfold by (rewrite Hj; destruct k; discriminate).
    rewrite Hj at 1 2; rewrite initial_slashes_head by assumption.
    rewrite split_slashes, fold_skip_empty, split_join
      by (auto using plain_no_slash).
    rewrite fold_fixed by assumption.
    now apply out_nonempty.
Qed.

(** A trailing separator after a result of [normpath] is dropped again,
    unless the result is made of separators only. *)
Lemma normpath_out_slash k comps :
  k <= 2 -> Forall plain comps -> dots_first k comps ->
  out k comps <> "/" -> out k comps <> "//" ->
  normpath (out k comps ++ "/") = out k comps.
Proof.
  intros Hk Hall Hdots H1 H2; destruct comps as [|x l].
  - assert (Hk' : k = 0 \/ k = 1 \/ k = 2) by lia.
    destruct Hk' as [-> | [-> | ->]]; [reflexivity | |]; contradiction.
  - assert (Hne : x :: l <> []) by discriminate.
    destruct (join_head _ Hne Hall) as (c & r & Hj & Hc).
    rewrite out_nonempty by assumption.
    rewrite append_assoc.
    rewrite normpath_unfold by (rewrite Hj; destruct k; discriminate).
    rewrite Hj at 1 2; cbn [String.append].
    rewrite initial_slashes_head by assumption.
    rewrite split_slashes, fold_skip_empty.
    rewrite split_snoc_sep, split_join by (auto using plain_no_slash).
    rewrite fold_left_app, (fold_fixed k (x :: l) []) by assumption.
    now apply out_nonempty.
Qed.

(** *** The last character *)

Lemma last_char_app (a b : string) :
  b <> "" -> last_char (a ++ b) = last_char b.
Proof.
  intros Hb; induction a as [|c a IH]; [reflexivity |].
  simpl; rewrite IH.
  destruct (a ++ b)%string eqn:Hab; [| reflexivity].
  destruct a; simpl in Hab; [contradiction | discriminate].
Qed.

Lemma endswith_sep_app (s : string) : endswith_char (s ++ "/") "/" = true.
Proof. unfold endswith_char; rewrite last_char_app by discriminate; reflexivity. Qed.

Lemma plain_last (x : string) :
  x <> "" -> no_slash x -> endswith_char x "/" = false.
Proof.
  unfold endswith_char; induction x as [|c x IH]; [contradiction |].
  intros _ [Hc Hx]; destruct x as [|d x].
  - simpl; now apply Ascii.eqb_neq.
  - change (last_char (String c (String d x))) with (last_char (String d x)).
    apply IH; [discriminate | assumption].
Qed.

Lemma join_last (comps : list string) :
  comps <> [] -> Forall plain comps -> endswith_char (join "/" comps) "/" = false.
Proof.
  induction comps as [|x l IH]; [contradiction |]; intros _ Hall.
  inversion Hall as [|? ? (Hne & _ & Hns) Hl]; subst.
  destruct l as [|y l]; [now apply plain_last |].
  change (join "/" (x :: y :: l)) with (x ++ ("/" ++ join "/" (y :: l)))%string.
  assert (Hy : y :: l <> []) by discriminate.
  destruct (join_head _ Hy Hl) as (c & r & Hj & _).
  unfold endswith_char in *.
  rewrite last_char_app by discriminate.
  rewrite last_char_app by (rewrite Hj; discriminate).
  apply IH; assumption.
Qed.

Lemma out_last k comps :
  k <= 2 -> Forall plain comps ->
  out k comps <> "/" -> out k comps <> "//" ->
  endswith_char (out k comps) "/" = false.
Proof.
  intros Hk Hall H1 H2; destruct comps as [|x l].
  - assert (Hk' : k = 0 \/ k = 1 \/ k = 2) by lia.
    destruct Hk' as [-> | [-> | ->]]; [reflexivity | |]; contradiction.
  - assert (Hne : x :: l <> []) by discriminate.
    rewrite out_nonempty by assumption.
    destruct (join_head _ Hne Hall) as (c & r & Hj & _).
    unfold endswith_char; rewrite last_char_app by (rewrite Hj; discriminate).
    now apply join_last.
Qed.

(** ** [norm_path] applied twice *)

(** [norm_path] without its local names. *)
Lemma norm_path_eq (p : string) :
  norm_path p
  = let s := strip p in
    let n := normpath s in
    if String.eqb n "" || String.eqb n "/" then "/"
    else if endswith_char s "/" || str_in (strip s) [""; "."; ".."]
         then (n ++ "/")%string
         else n.
Proof. unfold norm_path, os_sep, SEP; rewrite replace_sep_sep; reflexivity. Qed.

Lemma str_in_designators (s : string) :
  s <> "" -> s <> "." -> s <> ".." -> str_in s [""; "."; ".."] = false.
Proof.
  intros H1 H2 H3; unfold str_in; simpl.
  apply String.eqb_neq in H1, H2, H3; now rewrite H1, H2, H3.
Qed.

(** C4 (as the code has it). [norm_path] applied to its own result gives
    that result again, provided the result has no white space at either end
    and is none of [.], [..], [//] and [///]. *)
Theorem norm_path_idempotent_on_clean_results (p : string) :
  strip (norm_path p) = norm_path p ->
  norm_path p <> "." -> norm_path p <> ".." ->
  norm_path p <> "//" -> norm_path p <> "///" ->
  norm_path (norm_path p) = norm_path p.
Proof.
  destruct (normpath_shape (strip p)) as (k & comps & Hk & Hall & Hdots & Hn).
  rewrite (norm_path_eq p); cbv zeta; rewrite Hn.
  destruct (String.eqb (out k comps) "" || String.eqb (out k comps) "/") eqn:Hroot;
    [reflexivity |].
  apply orb_false_iff in Hroot as [Hne Hsep].
  pose proof Hne as Hne'; pose proof Hsep as Hsep'.
  apply String.eqb_neq in Hne', Hsep'.
  destruct (endswith_char (strip p) "/" || str_in (strip (strip p)) [""; "."; ".."]);
    intros Hstrip Hdot Hdotdot H2 H3; rewrite norm_path_eq; cbv zeta; rewrite !Hstrip.
  - assert (Hout2 : out k comps <> "//") by (intros Heq; rewrite Heq in H3; now apply H3).
    rewrite normpath_out_slash, Hne, Hsep, endswith_sep_app by assumption.
    reflexivity.
  - rewrite normpath_out, Hne, Hsep, out_last, str_in_designators by assumption.
    reflexivity.
Qed.

Lemma norm_path_idempotent_on_clean_results_witness :
  norm_path "x/y/../" = "x/" /\ norm_path (norm_path "x/y/../") = norm_path "x/y/../".
Proof.
  split; [reflexivity |].
  apply norm_path_idempotent_on_clean_results;
    first [reflexivity | vm_compute; discriminate].
Defined.

(** C4, refuted as stated: [a/../..] is normalised to [..], which is
    normalised to [../]; [./ a] is normalised to [ a] (with a leading blank),
    which is normalised to [a]; [//] is normalised to [///], which is
    normalised to the bare separator. *)
Lemma norm_path_not_idempotent :
  norm_path (norm_path "a/../..") <> norm_path "a/../.."
  /\ norm_path (norm_path "./ a") <> norm_path "./ a"
  /\ norm_path (norm_path "//") <> norm_path "//".
Proof. repeat split; vm_compute; discriminate. Qed.

(** ** A trailing separator survives normalisation *)

Lemma rstrip_keeps (f : ascii -> bool) (s : string) (c : ascii) :
  last_char s = Some c -> f c = false -> rstrip_by f s = s.
Proof.
  induction s as [|d s IH]; [discriminate |]; intros Hlast Hc.
  destruct s as [|d' s].
  - injection Hlast as ->; simpl; now rewrite Hc.
  - change (last_char (String d (String d' s))) with (last_char (String d' s)) in Hlast.
    specialize (IH Hlast Hc).
    change (rstrip_by f (String d (String d' s)))
      with (match rstrip_by f (String d' s) with
            | EmptyString => if f d then EmptyString else String d EmptyString
            | r => String d r
            end).
    now rewrite IH.
Qed.

Lemma lstrip_last (f : ascii -> bool) (s : string) (c : ascii) :
  last_char s = Some c -> f c = false -> last_char (lstrip_by f s) = Some c.
Proof.
  induction s as [|d s IH]; [discriminate |]; intros Hlast Hc.
  simpl lstrip_by; destruct (f d) eqn:Hd; [| exact Hlast].
  destruct s as [|d' s].
  - injection Hlast as ->; congruence.
  - apply IH; assumption.
Qed.

Lemma strip_endswith_sep (s : string) :
  endswith_char s "/" = true -> endswith_char (strip s) "/" = true.
Proof.
  unfold endswith_char; destruct (last_char s) as [c|] eqn:Hlast; [| discriminate].
  intros Hc; apply Ascii.eqb_eq in Hc; subst c.
  unfold strip, strip_by.
  assert (Hl : last_char (lstrip_by is_space s) = Some "/"%char)
    by (apply lstrip_last; [assumption | reflexivity]).
  rewrite (rstrip_keeps is_space _ "/"%char Hl eq_refl), Hl; reflexivity.
Qed.

Lemma norm_path_endswith_sep (s : string) :
  endswith_char s "/" = true -> endswith_char (norm_path s) "/" = true.
Proof.
  intros Hs; apply strip_endswith_sep in Hs.
  rewrite norm_path_eq; cbv zeta; rewrite Hs; cbn [orb].
  destruct (_ || _); [reflexivity | apply endswith_sep_app].
Qed.

(** A key that ends with the separator is directory-shaped, before and
    after normalisation. *)
Lemma separator_ended_is_dir (remote : string) :
  endswith_char remote "/" = true ->
  is_dir remote = true /\ is_dir (norm_path remote) = true.
Proof.
  intros Hs; unfold is_dir; split.
  - destruct (str_in _ _); [reflexivity | now apply norm_path_endswith_sep].
  - destruct (str_in _ _); [reflexivity |].
    now apply norm_path_endswith_sep, norm_path_endswith_sep.
Qed.

(** [normpath] never returns the empty string. *)
Lemma normpath_never_empty (s : string) : normpath s <> "".
Proof.
  destruct (normpath_shape s) as (k & comps & _ & _ & _ & ->).
  unfold out; cbv zeta.
  destruct (String.eqb_spec (repeat_str "/" k ++ join "/" comps) "");
    [discriminate | assumption].
Qed.

(** ** [norm_path] on paths that collapse to nothing *)

(** C3, evaluated: on the empty string, on [.], on [a/..] and on [./],
    [norm_path] gives [./], [./], [.] and [./], none of them the bare
    separator.  [normpath] returns the empty string on no input at all, so
    the comparison of the collapsed path with the empty string in
    [norm_path] never holds. *)
Theorem norm_path_of_empty_collapse :
  norm_path "" = "./" /\ norm_path "." = "./"
  /\ norm_path "a/.." = "." /\ norm_path "./" = "./"
  /\ (forall p, normpath p <> "").
Proof. repeat split; try reflexivity; apply normpath_never_empty. Qed.

(** ** The per-object loops *)

Section Walks.
Context {E : Type} `{Outside E}.

Lemma invoke_eq {A} (c : call) (f : E -> outcome A * E) (w : world E) r e' :
  f (outside w) = (r, e') ->
  invoke c f w = (r, World e' (log w ++ [Called c])).
Proof. intros Hf; unfold invoke; rewrite Hf; reflexivity. Qed.

Lemma call_back_returns (ev : list pyval -> event) f args (w : world E) :
  f args = None ->
  call_back ev (Some f) args w = (Returned tt, World (outside w) (log w ++ [ev args])).
Proof. intros Hf; unfold call_back; rewrite Hf; reflexivity. Qed.


Lemma copy_single_step cbs src dst (w : world E) st e' :
  returns cbs ->
  bucket_copy_object src dst (outside w) = (Returned st, e') ->
  copy_single cbs src dst w
  = (Returned tt, World e' (log w ++ copy_events (fun _ => dst) (src, st))).
Proof.
  intros (f & g & Hs & He & Hf & Hg) Hd.
  unfold copy_single, bind.
  rewrite (invoke_eq _ _ _ _ _ Hd), Hs, He.
  destruct (400 <=? st)%Z eqn:Hst; rewrite call_back_returns by auto;
    simpl; rewrite Hst, <- app_assoc; reflexivity.
Qed.

Lemma move_single_step cbs old new (w : world E) st1 e1 st2 e2 :
  returns cbs ->
  bucket_copy_object old new (outside w) = (Returned st1, e1) ->
  bucket_delete_object old e1 = (Returned st2, e2) ->
  move_single cbs old new w
  = (Returned tt, World e2 (log w ++ move_events (fun _ => new) (old, (st1, st2)))).
Proof.
  intros (f & g & Hs & He & Hf & Hg) Hc Hd.
  unfold move_single, bind.
  rewrite (invoke_eq _ _ _ _ _ Hc), Hs, He.
  destruct (400 <=? st1)%Z eqn:Hst1.
  - rewrite call_back_returns by auto. cbn [outside log].
    rewrite (invoke_eq (DeleteObject old) _ (World e1 _) _ _ Hd). cbn [outside log].
    destruct (400 <=? st2)%Z eqn:Hst2; rewrite call_back_returns by auto;
      cbn [outside log move_events]; rewrite Hst1, Hst2;
      repeat rewrite <- app_assoc; reflexivity.
  - unfold ret.
    rewrite (invoke_eq (DeleteObject old) _ (World e1 _) _ _ Hd). cbn [outside log].
    destruct (400 <=? st2)%Z eqn:Hst2; rewrite call_back_returns by auto;
      cbn [outside log move_events]; rewrite Hst1, Hst2;
      repeat rewrite <- app_assoc; reflexivity.
Qed.

(** A loop whose body returns on every object visits every object. *)
Lemma for_each_walk {S : Type} (body : string -> M E unit)
    (evs : string * S -> list event) :
  (forall k w, exists s w',
      body k w = (Returned tt, w') /\ log w' = log w ++ evs (k, s)) ->
  forall ks w, exists ss w',
      List.length ss = List.length ks
      /\ for_each ks body w = (Returned tt, w')
      /\ log w' = log w ++ flat_map evs (combine ks ss).
Proof.
  intros Hbody ks; induction ks as [|k ks IH]; intros w.
  - exists [], w; repeat split; simpl; now rewrite app_nil_r.
  - destruct (Hbody k w) as (s & w1 & Hb & Hl).
    destruct (IH w1) as (ss & w2 & Hlen & Hrun & Hlog).
    exists (s :: ss), w2; repeat split.
    + simpl; now rewrite Hlen.
    + simpl; unfold bind; now rewrite Hb.
    + simpl; rewrite Hlog, Hl, <- app_assoc; reflexivity.
Qed.




Lemma move_walk cbs (dest : string -> string) ks (w : world E) :
  answers -> returns cbs ->
  exists sts w',
    List.length sts = List.length ks
    /\ for_each ks (fun key => move_single cbs key (dest key)) w = (Returned tt, w')
    /\ log w' = log w ++ flat_map (move_events dest) (combine ks sts).
Proof.
  intros [Hcp Hdel] Hcb; apply for_each_walk; intros k w0.
  destruct (Hcp k (dest k) (outside w0)) as (st1 & e1 & Hc).
  destruct (Hdel k e1) as (st2 & e2 & Hd).
  exists (st1, st2); eexists; split;
    [eapply move_single_step; eauto | reflexivity].
Qed.

End Walks.

Section Claims.
Context {E : Type} `{Outside E}.


(** C8. [delete] of a directory-shaped key with [recursive] false raises
    [YuiDeleteException] and makes no request at all, so no deletion: the
    bucket and the log are as before (whether the directory holds objects or
    not).  Directory-shaped is the test of the code, [is_dir] on the
    normalised key; every key that ends with the separator passes it
    ([separator_ended_is_dir]). *)
Theorem delete_directory_needs_recursive
    (cbs : callbacks) (w : world E) (remote : string) :
  is_dir (norm_path remote) = true ->
  delete remote false cbs w
  = (Raised (YuiFrom YuiDeleteException
               (YuiText YuiDeleteException
                  "The directory to be deleted is not empty!")), w)
  /\ deleted_keys (log (snd (delete remote false cbs w))) = deleted_keys (log w).
Proof.
  intros Hdir; unfold delete, try_wrap; rewrite Hdir; split; reflexivity.
Qed.



End Claims.

(** ** The bucket in memory meets the assumptions *)

Lemma mem_answers : answers (E := MemBucket.t).
Proof.
  split.
  - intros src dst e; unfold bucket_copy_object; simpl; unfold MemBucket.copy_object.
    destruct (MemBucket.status_of src e); [eauto |].
    destruct (str_in src (MemBucket.keys e)); eauto.
  - intros key e; unfold bucket_delete_object; simpl; unfold MemBucket.delete_object.
    destruct (MemBucket.status_of key e); eauto.
Qed.

Lemma quiet_returns : returns MemBucket.quiet.
Proof. do 2 eexists; repeat split; reflexivity. Qed.


Lemma delete_directory_needs_recursive_witness :
  is_dir (norm_path "x/") = true
  /\ fst (delete "x/" false MemBucket.quiet bucket_x)
     = Raised (YuiFrom YuiDeleteException
                 (YuiText YuiDeleteException
                    "The directory to be deleted is not empty!"))
  /\ snd (delete "x/" false MemBucket.quiet bucket_x) = bucket_x.
Proof.
  assert (Hdir : is_dir (norm_path "x/") = true) by reflexivity.
  split; [exact Hdir |].
  destruct (delete_directory_needs_recursive MemBucket.quiet bucket_x "x/" Hdir)
    as [Hraised _].
  rewrite Hraised; split; reflexivity.
Defined.




(** The error report of [copy_single] (and of the copy step of
    [move_single]) carries three arguments, without the name of the
    operation that the other reports start with.  A callback of four
    parameters, like those of [Yui], raises on it, and the exception ends
    the walk: here [x/b/c.txt] is never asked for. *)
Lemma copy_error_report_has_three_arguments :
  copy "x/b/" "y/" Yui_callbacks bucket_x_denied
  = (Raised (YuiFrom YuiCopyException (Error "TypeError")),
     World (outside bucket_x_denied)
       [Called (ListObjects "x/b/" "");
        Called (CopyObject "x/b/" "y/b/");
        OnError [Str "x/b/"; Str "y/b/"; Result 403]]).
Proof. reflexivity. Qed.

(** ** The move scenario *)

(** C1 (as the code has it). When a recursive listing of [x/] gives
    [x/a.txt], [x/b/], [x/b/c.txt], [move] of [x/] to [y/] lists once and
    then, object by object in listing order, copies and deletes; the
    directory is moved into [y/], so the destination keys are [y/x/a.txt],
    [y/x/b/] and [y/x/b/c.txt]. *)
Theorem move_directory_into_directory
    {E : Type} `{Outside E} (cbs : callbacks) (w : world E) (e1 : E) :
  answers -> returns cbs ->
  bucket_list_objects "x/" "" (outside w)
  = (Returned ["x/a.txt"; "x/b/"; "x/b/c.txt"], e1) ->
  exists evs w',
    move "x/" "y/" cbs w = (Returned tt, w')
    /\ log w' = log w ++ evs
    /\ calls_of evs
       = [ListObjects "x/" "";
          CopyObject "x/a.txt" "y/x/a.txt"; DeleteObject "x/a.txt";
          CopyObject "x/b/" "y/x/b/"; DeleteObject "x/b/";
          CopyObject "x/b/c.txt" "y/x/b/c.txt"; DeleteObject "x/b/c.txt"].
Proof.
  intros Hans Hcb Hlist.
  assert (Hx : norm_path "x/" = "x/") by reflexivity.
  assert (Hy : norm_path "y/" = "y/") by reflexivity.
  assert (Hdx : is_dir "x/" = true) by reflexivity.
  assert (Hdy : is_dir "y/" = true) by reflexivity.
  assert (Hsub : startswith "y/" "x/" = false) by reflexivity.
  destruct (move_walk cbs (new_path (parent_prefix "x/") "y/")
              ["x/a.txt"; "x/b/"; "x/b/c.txt"]
              (World e1 (log w ++ [Called (ListObjects "x/" "")])) Hans Hcb)
    as (sts & w' & Hlen & Hrun & Hlog).
  exists (Called (ListObjects "x/" "")
          :: flat_map (move_events (new_path (parent_prefix "x/") "y/"))
               (combine ["x/a.txt"; "x/b/"; "x/b/c.txt"] sts)), w'.
  split; [| split].
  - unfold move, try_wrap; rewrite Hx, Hy, Hdx, Hdy, Hsub; cbn [negb].
    unfold bind, list_dir; rewrite (invoke_eq _ _ _ _ _ Hlist), Hrun; reflexivity.
  - rewrite Hlog; cbn [log]; now rewrite <- app_assoc.
  - destruct sts as [|[a1 b1] [|[a2 b2] [|[a3 b3] [|]]]]; try discriminate Hlen.
    cbn [combine flat_map move_events app].
    destruct (400 <=? a1)%Z, (400 <=? b1)%Z, (400 <=? a2)%Z, (400 <=? b2)%Z,
             (400 <=? a3)%Z, (400 <=? b3)%Z; reflexivity.
Qed.

Lemma move_directory_into_directory_witness :
  exists evs w',
    move "x/" "y/" MemBucket.quiet bucket_x = (Returned tt, w')
    /\ log w' = evs
    /\ calls_of evs
       = [ListObjects "x/" "";
          CopyObject "x/a.txt" "y/x/a.txt"; DeleteObject "x/a.txt";
          CopyObject "x/b/" "y/x/b/"; DeleteObject "x/b/";
          CopyObject "x/b/c.txt" "y/x/b/c.txt"; DeleteObject "x/b/c.txt"].
Proof.
  assert (Hlist : bucket_list_objects "x/" "" (outside bucket_x)
                  = (Returned ["x/a.txt"; "x/b/"; "x/b/c.txt"], outside bucket_x))
    by reflexivity.
  exact (move_directory_into_directory MemBucket.quiet bucket_x _
           mem_answers quiet_returns Hlist).
Defined.

(** C1, refuted as stated: on the bucket holding [x/a.txt], [x/b/] and
    [x/b/c.txt], the copies that [move] of [x/] to [y/] requests do not go
    to [y/a.txt], [y/b/], [y/b/c.txt]. *)
Lemma move_scenario_destinations_differ :
  copy_destinations (log (snd (move "x/" "y/" MemBucket.quiet bucket_x)))
  <> ["y/a.txt"; "y/b/"; "y/b/c.txt"].
Proof. vm_compute; discriminate. Qed.

(** ** Recursive download *)

(** C5, evaluated: the recursive download of [p/x/] into [/tmp/d] makes the
    directory [/tmp/d/x/] and then asks for [p/x/a.txt] to be written to
    [/tmp/d/p/x], not to [/tmp/d/x/a.txt]: the whole key of the parent is
    re-rooted under the local path, the prefix [p/] of the downloaded
    directory is not stripped. *)
Theorem download_nested_directory :
  calls_of (log (snd (download "p/x/" "/tmp/d" true MemBucket.quiet bucket_nested)))
  = [Mkdir "/tmp/d/x/"; ListObjects "p/x/" "";
     GetObjectToFile "p/x/a.txt" "/tmp/d/p/x"]
  /\ fst (download "p/x/" "/tmp/d" true MemBucket.quiet bucket_nested)
     = Raised (YuiFrom YuiDownloadException (Error "FileNotFoundError")).
Proof. split; reflexivity. Qed.

(** A directory at the top of the bucket, for comparison: the objects under
    [x/] land under [/tmp/d/x/]. *)
Example download_top_directory :
  calls_of (log (snd (download "x/" "/tmp/d" true MemBucket.quiet bucket_x)))
  = [Mkdir "/tmp/d/x/"; ListObjects "x/" "";
     GetObjectToFile "x/a.txt" "/tmp/d/x/a.txt";
     Mkdir "/tmp/d/x/b/";
     GetObjectToFile "x/b/c.txt" "/tmp/d/x/b/c.txt"].
Proof. reflexivity. Qed.

(** ** The [cd] command *)

Section Cd.
Context {E : Type}.

(** C2 (as the code has it). [cd] never asks the bucket anything: it tests
    the shape of its argument with [is_dir].  An argument that is not
    directory-shaped is rejected with a message in red, and the root, the
    attributes and the attribute file stay as they were; a directory-shaped
    argument is resolved against the current root and persisted, whether or
    not such a directory exists in the bucket. *)
Theorem cd_checks_shape_only (args : list string) (y : Yui E) :
  fm (cd args y) = fm y
  /\ (forall path rest, args = path :: rest -> is_dir path = false ->
        root (cd args y) = root y
        /\ attrs_root (cd args y) = attrs_root y
        /\ attr_file_root (cd args y) = attr_file_root y
        /\ stdout (cd args y)
           = stdout (basic_info_print y) ++ [(RED, "cd path should be a directory")])
  /\ (forall path rest, args = path :: rest -> is_dir path = true ->
        let p := norm_path path in
        let tmp_root := if startswith p SEP then drop 1 p else (root y ++ p)%string in
        root (cd args y) = join SEP (fold_left cd_step (split "/" tmp_root) [])
        /\ attr_file_root (cd args y) = root (cd args y)).
Proof.
  split; [| split].
  - unfold cd; destruct args as [|path rest]; [reflexivity |].
    destruct (is_dir path); reflexivity.
  - intros path rest -> Hshape; unfold cd; rewrite Hshape; repeat split.
  - intros path rest -> Hshape; unfold cd; rewrite Hshape; split; reflexivity.
Qed.

(** C9. [cd ..] from the root [x/y/] gives the root [x/]; from the root of
    the bucket (the empty root) it gives the empty root again.  The new root
    is persisted in both cases. *)
Theorem cd_dotdot (y : Yui E) :
  (root y = "x/y/" ->
   root (cd [".."] y) = "x/" /\ attr_file_root (cd [".."] y) = "x/")
  /\ (root y = "" ->
      root (cd [".."] y) = "" /\ attr_file_root (cd [".."] y) = "").
Proof.
  assert (Hshape : is_dir ".." = true) by reflexivity.
  assert (Hnorm : norm_path ".." = "../") by reflexivity.
  split; intros Hroot; unfold cd; rewrite Hshape, Hnorm; cbn [negb];
    cbn [root attr_file_root set_root set_attrs_root update_attr print
         basic_info_print attrs_root];
    rewrite Hroot; split; reflexivity.
Qed.

End Cd.

(** ** [cd ..] on a root made of names *)

Lemma join_snoc_empty (segs : list string) :
  segs <> [] -> join "/" (segs ++ [""]) = (join "/" segs ++ "/")%string.
Proof.
  induction segs as [|x l IH]; [contradiction |]; intros _.
  destruct l as [|y l]; [reflexivity |].
  change (join "/" ((x :: y :: l) ++ [""]))
    with (x ++ "/" ++ join "/" ((y :: l) ++ [""]))%string.
  rewrite IH by discriminate.
  change (join "/" (x :: y :: l)) with (x ++ "/" ++ join "/" (y :: l))%string.
  now rewrite !append_assoc.
Qed.

Lemma cd_step_names (segs : list string) : forall acc,
  Forall (fun seg => seg <> "." /\ seg <> "..") segs ->
  fold_left cd_step segs acc = acc ++ segs.
Proof.
  induction segs as [|x l IH]; intros acc Hall; simpl; [now rewrite app_nil_r |].
  inversion Hall as [|? ? [Hd Hdd] Hl]; subst.
  unfold cd_step at 2.
  apply String.eqb_neq in Hd, Hdd; rewrite Hd, Hdd.
  rewrite IH by assumption; now rewrite <- app_assoc.
Qed.

Lemma split_join_app (comps : list string) (t : string) :
  comps <> [] -> Forall no_slash comps ->
  split "/" (join "/" comps ++ String "/" t) = comps ++ split "/" t.
Proof.
  induction comps as [|x l IH]; [contradiction |]; intros _ Hall.
  inversion Hall as [|? ? Hx Hl]; subst.
  destruct l as [|z l].
  - simpl join; now rewrite split_app_sep.
  - change (join "/" (x :: z :: l)) with (x ++ String "/" (join "/" (z :: l)))%string.
    rewrite append_assoc; cbn [String.append].
    rewrite split_app_sep, IH by (assumption || discriminate).
    reflexivity.
Qed.

(** From a root made of the names [segs] (none of them [.] or [..], none
    with a separator inside), each followed by a separator, [cd ..] gives the
    root made of all of them but the last. *)
Lemma cd_dotdot_pops_last_segment {E : Type} (y : Yui E) (segs : list string) :
  Forall plain segs -> ~ In ".." segs ->
  root y = join "/" (segs ++ [""]) ->
  root (cd [".."] y) = join "/" (removelast segs ++ [""]).
Proof.
  intros Hplain Hnodd Hroot.
  assert (Hshape : is_dir ".." = true) by reflexivity.
  assert (Hnorm : norm_path ".." = "../") by reflexivity.
  unfold cd; rewrite Hshape, Hnorm; cbn [negb].
  cbn [root set_root set_attrs_root update_attr print basic_info_print].
  rewrite Hroot.
  destruct segs as [|x l]; [reflexivity |].
  assert (Hne : x :: l <> []) by discriminate.
  rewrite join_snoc_empty, append_assoc by assumption.
  change ("/" ++ "../")%string with (String "/" "../").
  replace (startswith "../" SEP) with false by reflexivity.
  rewrite split_join_app by (auto using plain_no_slash).
  rewrite fold_left_app, (cd_step_names (x :: l) []).
  - reflexivity.
  - rewrite Forall_forall in *; intros seg Hin; split.
    + now apply (Hplain seg Hin).
    + intros ->; contradiction.
Qed.

Lemma cd_checks_shape_only_witness :
  let y := MkYui bucket_x "bkt" "x/" "x/" "x/" [] in
  is_dir "b" = false
  /\ root (cd ["b"] y) = "x/" /\ attr_file_root (cd ["b"] y) = "x/"
  /\ is_dir "b/" = true
  /\ root (cd ["b/"] y) = "x/b/".
Proof.
  intros y.
  destruct (cd_checks_shape_only ["b"] y) as (_ & Hrejected & _).
  destruct (Hrejected "b" [] eq_refl eq_refl) as (Hroot & _ & Hfile & _).
  destruct (cd_checks_shape_only ["b/"] y) as (_ & _ & Hentered).
  destruct (Hentered "b/" [] eq_refl eq_refl) as (Hnew & _).
  split; [reflexivity |].
  split; [exact Hroot |].
  split; [exact Hfile |].
  split; [reflexivity | exact Hnew].
Defined.

Lemma cd_dotdot_witness :
  root (cd [".."] (MkYui bucket_x "bkt" "x/y/" "x/y/" "x/y/" [])) = "x/"
  /\ root (cd [".."] (MkYui bucket_x "bkt" "" "" "" [])) = "".
Proof.
  split.
  - destruct (cd_dotdot (MkYui bucket_x "bkt" "x/y/" "x/y/" "x/y/" [])) as [Hup _].
    exact (proj1 (Hup eq_refl)).
  - destruct (cd_dotdot (MkYui bucket_x "bkt" "" "" "" [])) as [_ Htop].
    exact (proj1 (Htop eq_refl)).
Defined.

(** C2, refuted as stated: the bucket holds nothing under [ghost/] (no such
    object, an empty listing), and [cd ghost/] still changes the root, in the
    object and in the attribute file, without a request to the bucket. *)
Lemma cd_enters_missing_directory :
  let y := MkYui bucket_x "bkt" "" "" "" [] in
  fst (is_exist "ghost/" (fm y)) = Returned false
  /\ fst (list_dir "ghost/" true (fm y)) = Returned []
  /\ root (cd ["ghost/"] y) = "ghost/"
  /\ attr_file_root (cd ["ghost/"] y) = "ghost/"
  /\ attr_file_root (cd ["ghost/"] y) <> attr_file_root y
  /\ log (fm (cd ["ghost/"] y)) = [].
Proof. vm_compute; repeat split; discriminate. Qed.

(** * Further properties *)

(** ** More on [strip] and on normal forms *)

Lemma lstrip_starts_kept f s : starts_kept f (lstrip_by f s).
Proof.
  induction s as [|c s IH]; simpl; [exact I |].
  destruct (f c) eqn:Hc; [exact IH | exact Hc].
Qed.

Lemma lstrip_fixed f s : starts_kept f s -> lstrip_by f s = s.
Proof. destruct s as [|c s]; simpl; [reflexivity | now intros ->]. Qed.

Lemma rstrip_starts_kept f s : starts_kept f s -> starts_kept f (rstrip_by f s).
Proof.
  destruct s as [|c s]; simpl; [auto |]; intros Hc.
  destruct (rstrip_by f s); [rewrite Hc |]; exact Hc.
Qed.

Lemma rstrip_idem f s : rstrip_by f (rstrip_by f s) = rstrip_by f s.
Proof.
  induction s as [|c s IH]; [reflexivity |].
  simpl; destruct (rstrip_by f s) as [|d r] eqn:Hr.
  - destruct (f c) eqn:Hc; simpl; [reflexivity | now rewrite Hc].
  - change (rstrip_by f (String c (String d r)))
      with (match rstrip_by f (String d r) with
            | EmptyString => if f c then EmptyString else String c EmptyString
            | r' => String c r'
            end).
    now rewrite IH.
Qed.

Lemma strip_by_idem f s : strip_by f (strip_by f s) = strip_by f s.
Proof.
  unfold strip_by.
  rewrite (lstrip_fixed f (rstrip_by f (lstrip_by f s)))
    by apply rstrip_starts_kept, lstrip_starts_kept.
  apply rstrip_idem.
Qed.

Lemma strip_idem s : strip (strip s) = strip s.
Proof. apply strip_by_idem. Qed.

(** X1. White space around a path is ignored by [norm_path] and [is_dir]. *)
Theorem norm_path_ignores_outer_space (p : string) :
  norm_path (strip p) = norm_path p /\ is_dir (strip p) = is_dir p.
Proof.
  assert (Hn : norm_path (strip p) = norm_path p)
    by (rewrite !norm_path_eq; cbv zeta; now rewrite !strip_idem).
  split; [exact Hn |].
  unfold is_dir; now rewrite strip_idem, Hn.
Qed.

(** X2. The shape of every normalised path. *)
Theorem norm_path_normal_form (p : string) :
  exists k comps,
    k <= 2 /\ Forall plain comps /\ dots_first k comps
    /\ (norm_path p = "/" \/ norm_path p = out k comps
        \/ norm_path p = (out k comps ++ "/")%string).
Proof.
  destruct (normpath_shape (strip p)) as (k & comps & Hk & Hall & Hdots & Hn).
  exists k, comps; repeat (split; [assumption |]).
  rewrite norm_path_eq; cbv zeta; rewrite Hn.
  destruct (_ || _); [now left |].
  destruct (_ || _); [right; right | right; left]; reflexivity.
Qed.

(** X3. When [is_dir] holds. *)
Theorem is_dir_iff (p : string) :
  is_dir p = true
  <-> (str_in (strip p) [""; "."; ".."] = true
       \/ endswith_char (strip p) "/" = true
       \/ normpath (strip p) = "/" \/ normpath (strip p) = "//").
Proof.
  unfold is_dir.
  destruct (str_in (strip p) [""; "."; ".."]) eqn:Hd; [intuition |].
  rewrite norm_path_eq; cbv zeta; rewrite strip_idem, Hd, orb_false_r.
  destruct (normpath_shape (strip p)) as (k & comps & Hk & Hall & Hdots & Hn).
  rewrite Hn.
  destruct (String.eqb_spec (out k comps) "") as [He | He].
  { exfalso; apply (normpath_never_empty (strip p)); congruence. }
  destruct (String.eqb_spec (out k comps) "/") as [Hs | Hs]; cbn [orb].
  { split; [intros _; right; right; now left | reflexivity]. }
  destruct (endswith_char (strip p) "/") eqn:Hend.
  { rewrite endswith_sep_app; split; [intros _; right; now left | reflexivity]. }
  destruct (string_dec (out k comps) "//") as [H2 | H2].
  - rewrite H2; split; [intros _; do 3 right; reflexivity | reflexivity].
  - rewrite out_last by assumption.
    split; [discriminate | intros [H | [H | [H | H]]]; congruence].
Qed.

(** ** Keys that are already normal *)

Lemma no_dotdot_dots_first k (comps : list string) :
  ~ In ".." comps -> dots_first k comps.
Proof.
  intros Hno a b ->; exfalso; apply Hno, in_or_app; right; now left.
Qed.

Lemma out_relative (comps : list string) :
  comps <> [] -> Forall plain comps -> out 0 comps = join "/" comps.
Proof. intros Hne Hall; now rewrite out_nonempty. Qed.

Lemma join_not_designator (comps : list string) :
  comps <> [] -> Forall plain comps -> ~ In ".." comps ->
  str_in (join "/" comps) [""; "."; ".."] = false.
Proof.
  intros Hne Hall Hno.
  pose proof (split_join comps Hne (plain_no_slash _ Hall)) as Hsplit.
  apply str_in_designators; intros Heq; rewrite Heq in Hsplit;
    simpl in Hsplit; subst comps.
  - inversion Hall as [|? ? (Hx & _) _]; now apply Hx.
  - inversion Hall as [|? ? (_ & Hx & _) _]; now apply Hx.
  - apply Hno; now left.
Qed.

Lemma join_not_root (comps : list string) :
  comps <> [] -> Forall plain comps ->
  String.eqb (join "/" comps) "" || String.eqb (join "/" comps) "/" = false.
Proof.
  intros Hne Hall; destruct (join_head comps Hne Hall) as (c & r & -> & Hc).
  simpl; destruct (Ascii.eqb_spec c "/"); [contradiction | reflexivity].
Qed.

Lemma normpath_clean (comps : list string) :
  comps <> [] -> Forall plain comps -> ~ In ".." comps ->
  normpath (join "/" comps) = join "/" comps
  /\ normpath (join "/" comps ++ "/") = join "/" comps.
Proof.
  intros Hne Hall Hno.
  assert (Hdots := no_dotdot_dots_first 0 comps Hno).
  pose proof (normpath_out 0 comps (Nat.le_0_l 2) Hall Hdots) as H1.
  assert (Hroot := join_not_root comps Hne Hall).
  apply orb_false_iff in Hroot as [_ Hsep]; apply String.eqb_neq in Hsep.
  assert (H2 : out 0 comps <> "//").
  { rewrite out_relative by assumption.
    destruct (join_head comps Hne Hall) as (c & r & -> & Hc).
    intros Heq; injection Heq as ->; now apply Hc. }
  pose proof (normpath_out_slash 0 comps (Nat.le_0_l 2) Hall Hdots) as H3.
  rewrite out_relative in H1, H2, H3 by assumption.
  split; [exact H1 | now apply H3].
Qed.

(** A key made of segments that are names, joined by single separators and
    without white space at its ends, is its own normal form. *)
Lemma norm_path_clean (comps : list string) :
  comps <> [] -> Forall plain comps -> ~ In ".." comps ->
  strip (join "/" comps) = join "/" comps ->
  norm_path (join "/" comps) = join "/" comps.
Proof.
  intros Hne Hall Hno Hstrip.
  rewrite norm_path_eq; cbv zeta; rewrite !Hstrip.
  rewrite (proj1 (normpath_clean comps Hne Hall Hno)).
  rewrite join_not_root, join_last, join_not_designator by assumption.
  reflexivity.
Qed.

Lemma norm_path_clean_dir (comps : list string) :
  comps <> [] -> Forall plain comps -> ~ In ".." comps ->
  strip (join "/" comps ++ "/") = (join "/" comps ++ "/")%string ->
  norm_path (join "/" comps ++ "/") = (join "/" comps ++ "/")%string.
Proof.
  intros Hne Hall Hno Hstrip.
  rewrite norm_path_eq; cbv zeta; rewrite !Hstrip.
  rewrite (proj2 (normpath_clean comps Hne Hall Hno)).
  rewrite join_not_root, endswith_sep_app by assumption.
  reflexivity.
Qed.

(** A clean key is not directory-shaped; followed by a separator it is. *)
Lemma is_dir_clean (comps : list string) :
  comps <> [] -> Forall plain comps -> ~ In ".." comps ->
  strip (join "/" comps) = join "/" comps ->
  is_dir (join "/" comps) = false.
Proof.
  intros Hne Hall Hno Hstrip; unfold is_dir.
  rewrite Hstrip, join_not_designator, norm_path_clean by assumption.
  now apply join_last.
Qed.

(** ** The root that [cd] computes *)

Lemma str_in_cases (s : string) :
  str_in s [""; "."; ".."] = true -> s = "" \/ s = "." \/ s = "..".
Proof.
  unfold str_in; simpl.
  destruct (String.eqb_spec s ""), (String.eqb_spec s "."),
    (String.eqb_spec s ".."); auto; discriminate.
Qed.

Lemma is_dir_norm_path_ends (path : string) :
  is_dir path = true -> endswith_char (norm_path path) "/" = true.
Proof.
  unfold is_dir; destruct (str_in (strip path) [""; "."; ".."]) eqn:Hd; [| auto].
  intros _; rewrite norm_path_eq; cbv zeta.
  apply str_in_cases in Hd as [-> | [-> | ->]]; reflexivity.
Qed.

Lemma endswith_sep_inv (s : string) :
  endswith_char s "/" = true -> exists t, s = (t ++ "/")%string.
Proof.
  unfold endswith_char; induction s as [|c s IH]; [discriminate |].
  destruct s as [|d s].
  - simpl; intros Hc; apply Ascii.eqb_eq in Hc; subst; now exists "".
  - intros H; destruct (IH H) as [t Ht]; exists (String c t); simpl; now rewrite <- Ht.
Qed.

Lemma cd_step_kept (acc : list string) (seg : string) :
  no_slash seg -> Forall kept_segment acc -> Forall kept_segment (cd_step acc seg).
Proof.
  intros Hns Hacc; unfold cd_step.
  destruct (String.eqb_spec seg "."); [assumption |].
  destruct (String.eqb_spec seg "..").
  - destruct (Nat.ltb 0 (List.length acc)); [| assumption].
    destruct acc as [|z acc] using rev_ind; [constructor |].
    rewrite removelast_last; apply Forall_app in Hacc; tauto.
  - apply Forall_app; split; [assumption |]; repeat constructor; assumption.
Qed.

Lemma cd_fold_kept (segs : list string) : forall acc,
  Forall no_slash segs -> Forall kept_segment acc ->
  Forall kept_segment (fold_left cd_step segs acc).
Proof.
  induction segs as [|s segs IH]; intros acc Hns Hacc; [assumption |].
  inversion Hns; subst; simpl; apply IH; [assumption |].
  now apply cd_step_kept.
Qed.

Lemma join_snoc (l : list string) (x : string) :
  l <> [] -> join "/" (l ++ [x]) = (join "/" l ++ "/" ++ x)%string.
Proof.
  induction l as [|a l IH]; [contradiction |]; intros _.
  destruct l as [|b l]; [reflexivity |].
  change (join "/" ((a :: b :: l) ++ [x]))
    with (a ++ "/" ++ join "/" ((b :: l) ++ [x]))%string.
  rewrite IH by discriminate.
  change (join "/" (a :: b :: l)) with (a ++ "/" ++ join "/" (b :: l))%string.
  now rewrite !append_assoc.
Qed.

(** The root computed from [tmp_root]. *)
Lemma cd_resolve_ends (tmp : string) :
  tmp = "" \/ endswith_char tmp "/" = true ->
  let r := join "/" (fold_left cd_step (split "/" tmp) []) in
  r = "" \/ endswith_char r "/" = true.
Proof.
  intros [-> | Hend]; [left; reflexivity |].
  apply endswith_sep_inv in Hend as [t ->].
  rewrite split_snoc_sep, fold_left_app.
  change (fold_left cd_step [""] (fold_left cd_step (split "/" t) []))
    with (fold_left cd_step (split "/" t) [] ++ [""]).
  destruct (fold_left cd_step (split "/" t) []) as [|a l] eqn:HL;
    [left; reflexivity | right].
  rewrite join_snoc by discriminate.
  change ("/" ++ "")%string with "/"; apply endswith_sep_app.
Qed.

Lemma cd_resolve_segments (tmp : string) :
  Forall kept_segment
    (split "/" (join "/" (fold_left cd_step (split "/" tmp) []))).
Proof.
  pose proof (cd_fold_kept (split "/" tmp) [] (split_no_slash tmp) (Forall_nil _))
    as HL.
  destruct (fold_left cd_step (split "/" tmp) []) as [|a l] eqn:Heq.
  - repeat constructor; discriminate.
  - rewrite split_join; [assumption | discriminate |].
    eapply Forall_impl; [| exact HL]; intros s (_ & _ & Hs); exact Hs.
Qed.

Lemma cd_tmp_root_ends (r q : string) :
  endswith_char q "/" = true ->
  let tmp := if startswith q SEP then drop 1 q else (r ++ q)%string in
  tmp = "" \/ endswith_char tmp "/" = true.
Proof.
  intros Hq; cbv zeta.
  destruct (startswith q SEP) eqn:Hs.
  - destruct q as [|c q]; [discriminate |]; simpl drop.
    destruct q as [|d q]; [now left | right; exact Hq].
  - right; apply endswith_sep_inv in Hq as [t ->].
    rewrite <- append_assoc; apply endswith_sep_app.
Qed.

(** X4. After a [cd] that goes through, the root is empty (the root of the
    bucket) or ends with the separator, and the attributes and the
    attribute file hold it. *)
Theorem cd_root_ends_with_separator {E : Type} (args : list string) (y : Yui E) :
  cd_accepts args ->
  (root (cd args y) = "" \/ endswith_char (root (cd args y)) "/" = true)
  /\ attrs_root (cd args y) = root (cd args y)
  /\ attr_file_root (cd args y) = root (cd args y).
Proof.
  destruct args as [|path rest]; intros Hacc; [split; [now left | now split] |].
  simpl in Hacc; unfold cd; rewrite Hacc; cbn [negb].
  split; [| split; reflexivity].
  apply cd_resolve_ends, cd_tmp_root_ends, is_dir_norm_path_ends, Hacc.
Qed.

(** X5. After a [cd] that goes through, no segment of the root is [.] or
    [..], whatever the argument and the root before. *)
Theorem cd_root_has_no_dot_segment {E : Type} (args : list string) (y : Yui E) :
  cd_accepts args ->
  Forall (fun seg => seg <> "." /\ seg <> "..") (split "/" (root (cd args y))).
Proof.
  destruct args as [|path rest]; intros Hacc.
  - repeat constructor; discriminate.
  - simpl in Hacc; unfold cd; rewrite Hacc; cbn [negb].
    eapply Forall_impl; [| apply cd_resolve_segments].
    intros s (H1 & H2 & _); split; assumption.
Qed.

(** ** Into a child directory and back *)

Lemma plain_head (name : string) :
  plain name -> exists c r, name = String c r /\ c <> "/"%char.
Proof.
  intros (Hne & _ & Hns); destruct name as [|c r]; [contradiction |].
  destruct Hns as [Hc _]; eauto.
Qed.

Lemma startswith_sep_false (name t : string) :
  plain name -> startswith (name ++ t) SEP = false.
Proof.
  intros Hp; destruct (plain_head name Hp) as (c & r & -> & Hc).
  unfold startswith, SEP; cbn -[ascii_dec].
  destruct (ascii_dec "/" c); [congruence | reflexivity].
Qed.

Lemma cd_child_root (segs : list string) (name : string) :
  join "/" ((segs ++ [name]) ++ [""])
  = (join "/" (segs ++ [""]) ++ name ++ "/")%string.
Proof.
  rewrite join_snoc by (destruct segs; discriminate).
  destruct segs as [|a l]; [reflexivity |].
  rewrite !join_snoc by discriminate.
  now rewrite !append_assoc.
Qed.

Lemma cd_into_child {E : Type} (y : Yui E) (segs : list string) (name : string) :
  Forall plain segs -> ~ In ".." segs ->
  plain name -> name <> ".." ->
  strip (name ++ "/") = (name ++ "/")%string ->
  root y = join "/" (segs ++ [""]) ->
  root (cd [(name ++ "/")%string] y) = join "/" ((segs ++ [name]) ++ [""]).
Proof.
  intros Hsegs Hno Hname Hdd Hstrip Hroot.
  assert (Hshape : is_dir (name ++ "/") = true)
    by apply separator_ended_is_dir, endswith_sep_app.
  assert (Hnorm : norm_path (name ++ "/") = (name ++ "/")%string).
  { apply (norm_path_clean_dir [name]).
    - discriminate.
    - constructor; [assumption | constructor].
    - intros [H | []]; now apply Hdd.
    - assumption. }
  unfold cd; rewrite Hshape, Hnorm; cbn [negb].
  rewrite startswith_sep_false by assumption.
  cbn [root set_root set_attrs_root update_attr print basic_info_print].
  rewrite Hroot, <- cd_child_root.
  assert (Hall : Forall no_slash ((segs ++ [name]) ++ [""])).
  { repeat (apply Forall_app; split); [now apply plain_no_slash | |];
      repeat constructor; apply Hname. }
  rewrite split_join by (assumption || destruct segs; discriminate).
  rewrite cd_step_names; [reflexivity |].
  repeat (apply Forall_app; split).
  - rewrite Forall_forall in *; intros s Hin; split;
      [apply (Hsegs s Hin) | intros ->; contradiction].
  - repeat constructor; [apply Hname | assumption].
  - repeat constructor; discriminate.
Qed.

(** X6. From a root made of names, [cd] into the child [name/] appends the
    name and a separator to the root. *)
Theorem cd_child_appends_segment
    {E : Type} (y : Yui E) (segs : list string) (name : string) :
  Forall plain segs -> ~ In ".." segs ->
  plain name -> name <> ".." ->
  strip (name ++ "/") = (name ++ "/")%string ->
  root y = join "/" (segs ++ [""]) ->
  root (cd [(name ++ "/")%string] y) = (root y ++ name ++ "/")%string.
Proof.
  intros Hsegs Hno Hname Hdd Hstrip Hroot.
  rewrite (cd_into_child y segs name) by assumption.
  now rewrite cd_child_root, Hroot.
Qed.

(** X7. From a root made of names, [cd] into a child and then [cd ..] gives
    the root back. *)
Theorem cd_child_then_parent
    {E : Type} (y : Yui E) (segs : list string) (name : string) :
  Forall plain segs -> ~ In ".." segs ->
  plain name -> name <> ".." ->
  strip (name ++ "/") = (name ++ "/")%string ->
  root y = join "/" (segs ++ [""]) ->
  root (cd [".."] (cd [(name ++ "/")%string] y)) = root y.
Proof.
  intros Hsegs Hno Hname Hdd Hstrip Hroot.
  rewrite (cd_dotdot_pops_last_segment _ (segs ++ [name])).
  - now rewrite removelast_last, Hroot.
  - apply Forall_app; split; [assumption | constructor; [assumption | constructor]].
  - intros Hin; apply in_app_or in Hin as [Hin | [Hin | []]];
      [now apply Hno | now apply Hdd].
  - now apply cd_into_child.
Qed.

(** X8. A key made of names joined by single separators, without white space
    at its ends, is its own normal form and is not directory-shaped; with a
    separator after it, it is its own normal form and directory-shaped. *)
Theorem clean_key_is_normal (comps : list string) :
  comps <> [] -> Forall plain comps -> ~ In ".." comps ->
  strip (join "/" comps) = join "/" comps ->
  norm_path (join "/" comps) = join "/" comps
  /\ is_dir (join "/" comps) = false
  /\ (strip (join "/" comps ++ "/") = (join "/" comps ++ "/")%string ->
      norm_path (join "/" comps ++ "/") = (join "/" comps ++ "/")%string
      /\ is_dir (join "/" comps ++ "/") = true).
Proof.
  intros Hne Hall Hno Hstrip.
  split; [now apply norm_path_clean |].
  split; [now apply is_dir_clean |].
  intros Hstrip'; split; [now apply norm_path_clean_dir |].
  apply separator_ended_is_dir, endswith_sep_app.
Qed.

(** ** [replace] on keys *)

Lemma prefix_app (p s : string) : String.prefix p (p ++ s) = true.
Proof.
  induction p as [|c p IH]; simpl; [destruct s; reflexivity |].
  destruct (ascii_dec c c); [exact IH | congruence].
Qed.

Lemma prefix_no_slash (p s : string) :
  String.prefix p s = true -> no_slash s -> no_slash p.
Proof.
  revert s; induction p as [|c p IH]; intros s Hp Hs; [exact I |].
  destruct s as [|d s]; [discriminate |]; cbn -[ascii_dec] in Hp.
  destruct (ascii_dec c d) as [-> | _]; [| discriminate].
  destruct Hs as [Hd Hs]; split; [assumption | now apply (IH s)].
Qed.

Lemma no_slash_app_sep (x t : string) : ~ no_slash (x ++ String "/" t).
Proof. induction x as [|c x IH]; simpl; [intros [H _]; now apply H | tauto]. Qed.

(** Nothing is replaced in a string in which [old] cannot occur. *)
Lemma replace_from_absent (old new s : string) :
  ~ no_slash old -> no_slash s -> replace_from old new s 0 = s.
Proof.
  intros Hold; induction s as [|c s IH]; [reflexivity |]; intros Hs.
  cbn [replace_from].
  destruct (String.prefix old (String c s)) eqn:Hp.
  - exfalso; apply Hold; now apply (prefix_no_slash old (String c s)).
  - destruct Hs as [_ Hs]; now rewrite IH.
Qed.

Lemma replace_from_skip (old new t u : string) :
  replace_from old new (t ++ u) (String.length t) = replace_from old new u 0.
Proof. induction t as [|c t IH]; simpl; [destruct u; reflexivity | exact IH]. Qed.

(** The separator is replaced nowhere in a key without separator. *)
Lemma replace_sep_absent (k new : string) :
  no_slash k -> replace k "/" new = k.
Proof.
  intros Hk; unfold replace; apply replace_from_absent; [| assumption].
  intros [H _]; now apply H.
Qed.

(** A prefix that ends with the separator is replaced once, in front of a
    rest without separator. *)
Lemma replace_parent (x new base : string) :
  no_slash base ->
  replace ((x ++ "/") ++ base) (x ++ "/") new = (new ++ base)%string.
Proof.
  intros Hb; unfold replace.
  destruct (x ++ "/")%string as [|c p] eqn:Hp; [destruct x; discriminate |].
  cbn [String.append replace_from].
  change (String c (p ++ base)) with (String c p ++ base)%string.
  rewrite prefix_app.
  replace (String.length (String c p) - 1) with (String.length p)
    by (cbn [String.length]; lia).
  rewrite replace_from_skip, replace_from_absent; [reflexivity | | assumption].
  rewrite <- Hp; apply no_slash_app_sep.
Qed.

(** ** The segments of a clean key *)

Lemma last_char_nonempty (s : string) : s <> "" -> exists c, last_char s = Some c.
Proof.
  induction s as [|c s IH]; [contradiction |]; intros _.
  destruct s as [|d s]; [now exists c |].
  destruct IH as [e He]; [discriminate |]; now exists e.
Qed.

Lemma strip_char_clean (comps : list string) :
  comps <> [] -> Forall plain comps ->
  strip_char "/" (join "/" comps) = join "/" comps.
Proof.
  intros Hne Hall; unfold strip_char, strip_by.
  destruct (join_head comps Hne Hall) as (c & r & Hj & Hc).
  rewrite (lstrip_fixed _ (join "/" comps))
    by (rewrite Hj; unfold starts_kept; apply Ascii.eqb_neq; congruence).
  pose proof (join_last comps Hne Hall) as Hlast.
  destruct (last_char_nonempty (join "/" comps)) as [d Hd];
    [rewrite Hj; discriminate |].
  unfold endswith_char in Hlast; rewrite Hd in Hlast.
  apply (rstrip_keeps _ _ d Hd).
  apply Ascii.eqb_neq in Hlast; apply Ascii.eqb_neq; congruence.
Qed.

Lemma segments_clean (comps : list string) :
  comps <> [] -> Forall plain comps -> segments (join "/" comps) = comps.
Proof.
  intros Hne Hall; unfold segments.
  rewrite strip_char_clean, split_join by (auto using plain_no_slash).
  reflexivity.
Qed.

Lemma parent_prefix_clean (comps : list string) :
  comps <> [] -> Forall plain comps ->
  parent_prefix (join "/" comps) = (join "/" (removelast comps) ++ "/")%string.
Proof.
  intros Hne Hall; unfold parent_prefix, SEP; now rewrite segments_clean.
Qed.

(** The destination key of a single object sent into the directory [dest]:
    the key itself for an object at the top of the bucket, [dest] followed
    by the last segment otherwise. *)
Lemma object_destination (dirs : list string) (base dest : string) :
  Forall plain (dirs ++ [base]) ->
  let key := join "/" (dirs ++ [base]) in
  replace key (parent_prefix key) dest
  = match dirs with [] => base | _ => (dest ++ base)%string end.
Proof.
  intros Hall key; subst key.
  assert (Hbase : no_slash base).
  { apply Forall_app in Hall as [_ Hb]; inversion Hb as [|? ? (_ & _ & H) _]; exact H. }
  rewrite parent_prefix_clean by (assumption || destruct dirs; discriminate).
  rewrite removelast_last.
  destruct dirs as [|a l].
  - simpl; now apply replace_sep_absent.
  - rewrite join_snoc by discriminate.
    rewrite <- append_assoc; now apply replace_parent.
Qed.

Section SingleObjects.
Context {E : Type} `{Outside E}.

Lemma object_into_directory_runs
    (cbs : callbacks) (w : world E) (dirs : list string) (base dest : string) :
  returns cbs ->
  Forall plain (dirs ++ [base]) -> ~ In ".." (dirs ++ [base]) ->
  let key := join "/" (dirs ++ [base]) in
  let target := match dirs with [] => base | _ => (norm_path dest ++ base)%string end in
  strip key = key ->
  is_dir (norm_path dest) = true ->
  (forall st e1,
      bucket_copy_object key target (outside w) = (Returned st, e1) ->
      copy key dest cbs w
      = (Returned tt, World e1 (log w ++ copy_events (fun _ => target) (key, st))))
  /\ (forall st1 e1 st2 e2,
         bucket_copy_object key target (outside w) = (Returned st1, e1) ->
         bucket_delete_object key e1 = (Returned st2, e2) ->
         move key dest cbs w
         = (Returned tt,
            World e2 (log w ++ move_events (fun _ => target) (key, (st1, st2))))).
Proof.
  intros Hcb Hall Hno key target Hstrip Hdest.
  assert (Hne : dirs ++ [base] <> []) by (destruct dirs; discriminate).
  assert (Hnorm : norm_path key = key) by now apply norm_path_clean.
  assert (Hfile : is_dir key = false) by now apply is_dir_clean.
  assert (Htarget : replace key (parent_prefix key) (norm_path dest) = target)
    by now apply object_destination.
  split.
  - intros st e1 Hc; unfold copy, try_wrap.
    rewrite Hnorm, Hfile, Hdest, Htarget.
    now rewrite (copy_single_step cbs key target w st e1 Hcb Hc).
  - intros st1 e1 st2 e2 Hc Hd; unfold move, try_wrap.
    rewrite Hnorm, Hfile, Hdest, Htarget.
    now rewrite (move_single_step cbs key target w st1 e1 st2 e2 Hcb Hc Hd).
Qed.

(** X9. A single object under at least one directory, copied or moved into
    a directory-shaped destination, goes to the destination followed by the
    last segment of its key. *)
Theorem nested_object_lands_under_destination
    (cbs : callbacks) (w : world E) (dirs : list string) (base dest : string) :
  returns cbs ->
  dirs <> [] ->
  Forall plain (dirs ++ [base]) -> ~ In ".." (dirs ++ [base]) ->
  let key := join "/" (dirs ++ [base]) in
  let target := (norm_path dest ++ base)%string in
  strip key = key ->
  is_dir (norm_path dest) = true ->
  (forall st e1,
      bucket_copy_object key target (outside w) = (Returned st, e1) ->
      copy key dest cbs w
      = (Returned tt, World e1 (log w ++ copy_events (fun _ => target) (key, st))))
  /\ (forall st1 e1 st2 e2,
         bucket_copy_object key target (outside w) = (Returned st1, e1) ->
         bucket_delete_object key e1 = (Returned st2, e2) ->
         move key dest cbs w
         = (Returned tt,
            World e2 (log w ++ move_events (fun _ => target) (key, (st1, st2))))).
Proof.
  intros Hcb Hne Hall Hno key target Hstrip Hdest.
  destruct dirs as [|a l]; [contradiction |].
  exact (object_into_directory_runs cbs w (a :: l) base dest Hcb Hall Hno Hstrip Hdest).
Qed.

(** X10. A single object at the top of the bucket (its key has no
    separator), copied into a directory-shaped destination, is copied onto
    its own key; moved there, it is copied onto its own key and then
    deleted. *)
Theorem top_object_into_directory_stays
    (cbs : callbacks) (w : world E) (key dest : string) :
  returns cbs ->
  plain key -> key <> ".." -> strip key = key ->
  is_dir (norm_path dest) = true ->
  (forall st e1,
      bucket_copy_object key key (outside w) = (Returned st, e1) ->
      copy key dest cbs w
      = (Returned tt, World e1 (log w ++ copy_events (fun _ => key) (key, st))))
  /\ (forall st1 e1 st2 e2,
         bucket_copy_object key key (outside w) = (Returned st1, e1) ->
         bucket_delete_object key e1 = (Returned st2, e2) ->
         move key dest cbs w
         = (Returned tt,
            World e2 (log w ++ move_events (fun _ => key) (key, (st1, st2))))).
Proof.
  intros Hcb Hplain Hdd Hstrip Hdest.
  apply (object_into_directory_runs cbs w [] key dest Hcb).
  - constructor; [assumption | constructor].
  - intros [Hin | []]; now apply Hdd.
  - exact Hstrip.
  - exact Hdest.
Qed.

(** X11. A directory is not copied or moved into itself or below itself:
    when the normalised destination is directory-shaped and starts with the
    normalised source, or is equal to it, both operations raise before any
    request. *)
Theorem directory_into_itself_is_rejected
    (cbs : callbacks) (w : world E) (src dest : string) :
  is_dir (norm_path src) = true ->
  (is_dir (norm_path dest) = true
   /\ startswith (norm_path dest) (norm_path src) = true)
  \/ norm_path dest = norm_path src ->
  copy src dest cbs w
  = (Raised (YuiFrom YuiCopyException
               (YuiText YuiCopyException
                  "destination directory is a sub-directory of the source directory")),
     w)
  /\ move src dest cbs w
     = (Raised (YuiFrom YuiMoveException
                  (YuiText YuiMoveException
                     "destination directory is a sub-directory of the source directory")),
        w).
Proof.
  intros Hsrc Hsub.
  assert (Hboth : is_dir (norm_path dest) = true
                  /\ startswith (norm_path dest) (norm_path src) = true).
  { destruct Hsub as [Hs | ->]; [exact Hs | split; [exact Hsrc |]].
    unfold startswith; rewrite <- (append_empty_r (norm_path src)) at 2.
    apply prefix_app. }
  destruct Hboth as [Hdest Hstart].
  unfold copy, move, try_wrap; rewrite Hsrc, Hdest, Hstart; split; reflexivity.
Qed.

(** X12. A directory is copied or moved to a directory-shaped destination
    only: otherwise both operations raise before any request, [copy] with a
    [YuiMoveException] inside its [YuiCopyException]. *)
Theorem directory_to_object_is_rejected
    (cbs : callbacks) (w : world E) (src dest : string) :
  is_dir (norm_path src) = true ->
  is_dir (norm_path dest) = false ->
  copy src dest cbs w
  = (Raised (YuiFrom YuiCopyException
               (YuiText YuiMoveException
                  "destination path should also be a directory")), w)
  /\ move src dest cbs w
     = (Raised (YuiFrom YuiMoveException
                  (YuiText YuiMoveException
                     "destination path should also be a directory")), w).
Proof.
  intros Hsrc Hdest.
  unfold copy, move, try_wrap; rewrite Hsrc, Hdest; split; reflexivity.
Qed.



Lemma download_single_object
    (cbs : callbacks) (w : world E) (rem loc : string) (st : Z) (e1 : E) :
  returns cbs ->
  is_dir rem = false ->
  bucket_get_object_to_file rem (dest_loc (outside w) rem loc) (outside w)
  = (Returned st, e1) ->
  download_single cbs rem loc w
  = (Returned tt,
     World e1
       (log w ++
        [Called (GetObjectToFile rem (dest_loc (outside w) rem loc));
         if (400 <=? st)%Z
         then OnError [Str "download"; Str rem; Str loc; Result st]
         else OnSuccess [Str "download"; Str rem; Str loc; Result st]])).
Proof.
  intros (f & g & Hs & He & Hf & Hg) Hfile; unfold dest_loc; rewrite Hfile.
  intros Hget; unfold download_single, bind, ask; rewrite Hfile.
  rewrite (invoke_eq _ _ _ _ _ Hget), Hs, He.
  destruct (400 <=? st)%Z; rewrite call_back_returns by auto; cbn [outside log];
    now rewrite <- app_assoc.
Qed.


(** X15. [download] of a key that is not directory-shaped asks for one
    object: it is written into the local path when that path is a
    directory, under the last segment of the key, and to the local path
    itself otherwise; nothing is listed, whatever [recursive] is. *)
Theorem download_object_is_one_request
    (cbs : callbacks) (w : world E) (remote local : string) (recursive : bool)
    (st : Z) (e1 : E) :
  returns cbs ->
  is_dir (norm_path remote) = false ->
  let loc := abspath (os_getcwd (outside w)) local in
  let file := if os_path_isdir loc (outside w)
              then (loc ++ "/" ++ last (segments (norm_path remote)) "")%string
              else loc in
  bucket_get_object_to_file (norm_path remote) file (outside w) = (Returned st, e1) ->
  download remote local recursive cbs w
  = (Returned tt,
     World e1
       (log w ++
        [Called (GetObjectToFile (norm_path remote) file);
         if (400 <=? st)%Z
         then OnError [Str "download"; Str (norm_path remote); Str loc; Result st]
         else OnSuccess [Str "download"; Str (norm_path remote); Str loc; Result st]])).
Proof.
  intros Hcb Hfile loc file Hget.
  assert (Hdest : dest_loc (outside w) (norm_path remote) loc = file).
  { unfold dest_loc, file, os_sep; rewrite Hfile; apply append_empty_r. }
  rewrite <- Hdest in *.
  unfold download, try_wrap, bind at 1, ask; fold loc; unfold bind.
  rewrite (download_single_object cbs w _ loc st e1 Hcb Hfile Hget), Hfile.
  reflexivity.
Qed.

End SingleObjects.

(** ** What the operations ask for *)

Section Appends.
Context {E : Type} `{Outside E}.

Lemma appends_ret {A} P (a : A) : appends (E := E) P (ret a).
Proof. intros w; exists []; split; [simpl; now rewrite app_nil_r | constructor]. Qed.

Lemma appends_raise {A} P (x : exn) : appends (E := E) P (raise (A := A) x).
Proof. intros w; exists []; split; [simpl; now rewrite app_nil_r | constructor]. Qed.

Lemma appends_bind {A B} P (c : M E A) (k : A -> M E B) :
  appends P c -> (forall a, appends P (k a)) -> appends P (bind c k).
Proof.
  intros Hc Hk w; unfold bind.
  destruct (Hc w) as (evs1 & Hl1 & HP1).
  destruct (c w) as [[a | x] w1]; simpl in Hl1.
  - destruct (Hk a w1) as (evs2 & Hl2 & HP2).
    exists (evs1 ++ evs2); split; [| now apply Forall_app].
    now rewrite Hl2, Hl1, app_assoc.
  - exists evs1; split; assumption.
Qed.

Lemma appends_invoke {A} (P : event -> Prop) (c : call) (f : E -> outcome A * E) :
  P (Called c) -> appends P (invoke c f).
Proof.
  intros HP w; unfold invoke; destruct (f (outside w)) as [r e'].
  exists [Called c]; split; [reflexivity | now constructor].
Qed.

Lemma appends_ask {A} P (f : E -> A) : appends P (ask f).
Proof. intros w; exists []; split; [simpl; now rewrite app_nil_r | constructor]. Qed.

Lemma appends_call_back (P : event -> Prop) (ev : list pyval -> event) cb args :
  (forall a, P (ev a)) -> appends (E := E) P (call_back ev cb args).
Proof.
  intros HP; destruct cb as [f |]; [| apply appends_ret].
  intros w; exists [ev args]; split; [reflexivity | now constructor].
Qed.

Lemma appends_try_wrap {A} P cls (c : M E A) :
  appends P c -> appends P (try_wrap cls c).
Proof.
  intros Hc w; destruct (Hc w) as (evs & Hl & HP); exists evs; split; [| assumption].
  unfold try_wrap; destruct (c w) as [[a | x] w1]; exact Hl.
Qed.

Lemma appends_for_each {A} P (l : list A) (body : A -> M E unit) :
  (forall a, appends P (body a)) -> appends P (for_each l body).
Proof.
  intros Hb; induction l as [|a l IH]; [apply appends_ret |].
  simpl; apply appends_bind; [apply Hb | intros _; exact IH].
Qed.

Lemma appends_if {A} P (b : bool) (c1 c2 : M E A) :
  appends P c1 -> appends P c2 -> appends P (if b then c1 else c2).
Proof. destruct b; auto. Qed.

End Appends.

Ltac appends_step :=
  first [ apply appends_try_wrap | apply appends_for_each; intros ?
        | apply appends_bind; [| intros ?] | apply appends_if
        | apply appends_ret | apply appends_raise | apply appends_ask
        | apply appends_invoke; reflexivity
        | apply appends_call_back; intros ?; exact I ].

Lemma only_calls_no_delete (ok : call -> bool) (evs : list event) :
  (forall k, ok (DeleteObject k) = false) ->
  Forall (only_calls ok) evs -> deleted_keys evs = [].
Proof.
  intros Hok HP; induction HP as [|ev evs Hev _ IH]; [reflexivity |].
  simpl; rewrite IH, app_nil_r.
  destruct ev as [c | |]; try reflexivity; destruct c; try reflexivity.
  simpl in Hev; rewrite Hok in Hev; discriminate.
Qed.

Lemma only_calls_no_copy (ok : call -> bool) (evs : list event) :
  (forall s d, ok (CopyObject s d) = false) ->
  Forall (only_calls ok) evs -> copy_destinations evs = [].
Proof.
  intros Hok HP; induction HP as [|ev evs Hev _ IH]; [reflexivity |].
  simpl; rewrite IH, app_nil_r.
  destruct ev as [c | |]; try reflexivity; destruct c; try reflexivity.
  simpl in Hev; rewrite Hok in Hev; discriminate.
Qed.

Section Never.
Context {E : Type} `{Outside E}.

(** X16. Whatever the bucket answers and whatever the callbacks do, [copy]
    only adds to the log, and what it asks for is listings and copies: it
    never asks for a deletion and never touches the local file system. *)
Theorem copy_only_lists_and_copies
    (remote_src remote_dest : string) (cbs : callbacks) (w : world E) :
  exists evs,
    log (snd (copy remote_src remote_dest cbs w)) = log w ++ evs
    /\ Forall (only_calls copy_calls) evs
    /\ deleted_keys evs = [].
Proof.
  assert (Happ : appends (only_calls copy_calls) (copy remote_src remote_dest cbs)).
  { unfold copy, copy_single, list_dir; repeat appends_step. }
  destruct (Happ w) as (evs & Hl & HP); exists evs; repeat split; try assumption.
  now apply (only_calls_no_delete copy_calls).
Qed.

(** X17. [delete] only adds to the log, and what it asks for is listings and
    deletions: it never asks for a copy. *)
Theorem delete_only_lists_and_deletes
    (remote : string) (recursive : bool) (cbs : callbacks) (w : world E) :
  exists evs,
    log (snd (delete remote recursive cbs w)) = log w ++ evs
    /\ Forall (only_calls delete_calls) evs
    /\ copy_destinations evs = [].
Proof.
  assert (Happ : appends (only_calls delete_calls) (delete remote recursive cbs)).
  { unfold delete, delete_single, list_dir; repeat appends_step. }
  destruct (Happ w) as (evs & Hl & HP); exists evs; repeat split; try assumption.
  now apply (only_calls_no_copy delete_calls).
Qed.

(** X18. [download] and [is_exist] never ask the bucket to change: [download]
    asks for listings and objects and makes local directories, [is_exist]
    asks whether one object exists; neither asks for a copy or a
    deletion. *)
Theorem download_and_is_exist_only_read
    (remote local : string) (recursive : bool) (cbs : callbacks) (w : world E) :
  (exists evs,
      log (snd (download remote local recursive cbs w)) = log w ++ evs
      /\ Forall (only_calls download_calls) evs
      /\ copy_destinations evs = [] /\ deleted_keys evs = [])
  /\ log (snd (is_exist remote w)) = log w ++ [Called (ObjectExists (norm_path remote))].
Proof.
  split.
  - assert (Happ : appends (only_calls download_calls)
                     (download remote local recursive cbs)).
    { unfold download, download_single, list_dir; repeat appends_step. }
    destruct (Happ w) as (evs & Hl & HP); exists evs; repeat split; try assumption.
    + now apply (only_calls_no_copy download_calls).
    + now apply (only_calls_no_delete download_calls).
  - unfold is_exist, try_wrap, invoke.
    destruct (bucket_object_exists (norm_path remote) (outside w)) as [[b | x] e'];
      reflexivity.
Qed.

End Never.

Section MoveBalance.
Context {E : Type} `{Outside E}.

Lemma copy_sources_app (a b : list event) :
  copy_sources (a ++ b) = copy_sources a ++ copy_sources b.
Proof. apply flat_map_app. Qed.

Lemma deleted_keys_app (a b : list event) :
  deleted_keys (a ++ b) = deleted_keys a ++ deleted_keys b.
Proof. apply flat_map_app. Qed.

(** One move: the copy is asked for; when the move returns the deletion
    has been asked for as well. *)
Lemma move_single_balance (cbs : callbacks) (rem_old rem_new : string) (w : world E) :
  exists evs,
    log (snd (move_single cbs rem_old rem_new w)) = log w ++ evs
    /\ copy_sources evs = [rem_old]
    /\ (deleted_keys evs = [rem_old]
        \/ (deleted_keys evs = []
            /\ exists x, fst (move_single cbs rem_old rem_new w) = Raised x)).
Proof.
  unfold move_single, bind, invoke, call_back, ret.
  repeat (cbn [outside log fst snd];
          match goal with
          | |- context [bucket_copy_object ?a ?b ?e] =>
              destruct (bucket_copy_object a b e) as [[? | ?] ?]
          | |- context [bucket_delete_object ?a ?e] =>
              destruct (bucket_delete_object a e) as [[? | ?] ?]
          | |- context [(400 <=? ?s)%Z] => destruct (400 <=? s)%Z
          | |- context [on_error cbs] => destruct (on_error cbs)
          | |- context [on_success cbs] => destruct (on_success cbs)
          | |- context [match ?f ?args with Some _ => _ | None => _ end] =>
              destruct (f args)
          end);
    cbn [outside log fst snd]; rewrite <- ?app_assoc;
    (eexists; split; [reflexivity | split; [reflexivity |]]);
    first [left; reflexivity | right; split; [reflexivity | eauto]].
Qed.

Lemma move_walk_balance (cbs : callbacks) (dest : string -> string)
    (ks : list string) : forall w : world E,
  exists evs,
    log (snd (for_each ks (fun key => move_single cbs key (dest key)) w))
    = log w ++ evs
    /\ (settled evs
        \/ (pending evs
            /\ exists x,
                fst (for_each ks (fun key => move_single cbs key (dest key)) w)
                = Raised x)).
Proof.
  induction ks as [|k ks IH]; intros w.
  - exists []; split; [simpl; now rewrite app_nil_r | left; reflexivity].
  - destruct (move_single_balance cbs k (dest k) w) as (evs1 & Hl1 & Hc1 & Hd1).
    cbn [for_each]; unfold bind.
    destruct (move_single cbs k (dest k) w) as [[[] | x] w1]; cbn [fst snd] in *.
    + destruct Hd1 as [Hd1 | [_ [x Hx]]]; [| discriminate].
      destruct (IH w1) as (evs2 & Hl2 & Hbal).
      exists (evs1 ++ evs2); split; [now rewrite Hl2, Hl1, app_assoc |].
      unfold settled, pending in *.
      rewrite copy_sources_app, deleted_keys_app, Hc1, Hd1.
      destruct Hbal as [Hs | [[k' Hp] Hx]]; [left; now rewrite Hs | right].
      split; [exists k'; now rewrite Hp | exact Hx].
    + exists evs1; split; [exact Hl1 |].
      unfold settled, pending; rewrite Hc1.
      destruct Hd1 as [-> | [-> _]]; [now left | right].
      split; [now exists k | now exists x].
Qed.

(** X19. [move] asks for the deletion of exactly the objects it has asked to
    copy, in the same order, one deletion after each copy: in what it adds
    to the log the deleted keys are the copied keys, but for the last copied
    key when an exception stopped the move between its copy and its
    deletion; and [move] asks for nothing but listings, copies and
    deletions. *)
Theorem move_deletes_what_it_copied
    (remote_old remote_new : string) (cbs : callbacks) (w : world E) :
  exists evs,
    log (snd (move remote_old remote_new cbs w)) = log w ++ evs
    /\ Forall (only_calls move_calls) evs
    /\ (settled evs \/ pending evs)
    /\ (fst (move remote_old remote_new cbs w) = Returned tt -> settled evs).
Proof.
  assert (Happ : appends (only_calls move_calls) (move remote_old remote_new cbs)).
  { unfold move, move_single, list_dir; repeat appends_step. }
  assert (Hbal : exists evs,
             log (snd (move remote_old remote_new cbs w)) = log w ++ evs
             /\ (settled evs
                 \/ (pending evs
                     /\ exists x, fst (move remote_old remote_new cbs w) = Raised x))).
  { unfold move, try_wrap.
    set (prefix := parent_prefix (norm_path remote_old)).
    destruct (is_dir (norm_path remote_old)).
    - destruct (is_dir (norm_path remote_new)); cbn [negb];
        [| exists []; split; [simpl; now rewrite app_nil_r | left; reflexivity]].
      destruct (startswith (norm_path remote_new) (norm_path remote_old));
        [exists []; split; [simpl; now rewrite app_nil_r | left; reflexivity] |].
      unfold bind, list_dir, invoke.
      destruct (bucket_list_objects (norm_path remote_old) "" (outside w))
        as [[ks | x] e1].
      + destruct (move_walk_balance cbs (new_path prefix (norm_path remote_new)) ks
                    (World e1 (log w ++ [Called (ListObjects (norm_path remote_old) "")])))
          as (evs & Hl & Hb).
        exists (Called (ListObjects (norm_path remote_old) "") :: evs).
        destruct (for_each ks _ _) as [[[] | x] w1]; cbn [fst snd log] in *;
          (split; [rewrite Hl, <- app_assoc; reflexivity |]).
        * destruct Hb as [Hs | [_ [x Hx]]]; [now left | discriminate].
        * destruct Hb as [Hs | [Hp _]]; [now left | right; split; [exact Hp | eauto]].
      + exists [Called (ListObjects (norm_path remote_old) "")]; split;
          [reflexivity | left; reflexivity].
    - match goal with
      | |- context [move_single cbs ?a ?b w] =>
          destruct (move_single_balance cbs a b w) as (evs & Hl & Hc & Hd);
          exists evs; destruct (move_single cbs a b w) as [[[] | x] w1]
      end; cbn [fst snd] in *; (split; [exact Hl |]); unfold settled, pending.
      + destruct Hd as [Hd | [_ [x Hx]]]; [left; congruence | discriminate].
      + destruct Hd as [Hd | [Hd _]]; [left; congruence | right].
        split; [eexists; rewrite Hc, Hd; reflexivity | eauto]. }
  destruct (Happ w) as (evs & Hl & HP).
  destruct Hbal as (evs' & Hl' & Hb).
  assert (evs' = evs) by (rewrite Hl in Hl'; now apply app_inv_head in Hl').
  subst evs'; exists evs; repeat split; try assumption.
  - destruct Hb as [Hs | [Hp _]]; [now left | now right].
  - intros Hret; destruct Hb as [Hs | [_ [x Hx]]]; [assumption | congruence].
Qed.

End MoveBalance.

(** ** Checking a property of characters on all of them *)

Lemma in_all_ascii (c : ascii) : In c all_ascii.
Proof.
  unfold all_ascii; rewrite <- (ascii_nat_embedding c).
  apply in_map, in_seq; pose proof (nat_ascii_bounded c); lia.
Qed.

Lemma forall_ascii (P : ascii -> bool) :
  forallb P all_ascii = true -> forall c, P c = true.
Proof. intros H c; rewrite forallb_forall in H; apply H, in_all_ascii. Qed.

Lemma forall_ascii2 (P : ascii -> ascii -> bool) :
  forallb (fun a => forallb (P a) all_ascii) all_ascii = true ->
  forall a b, P a b = true.
Proof.
  intros H a b; apply forall_ascii; revert a.
  apply (forall_ascii (fun a => forallb (P a) all_ascii)), H.
Qed.

Lemma forall_sextet (P : N -> bool) :
  forallb P sextets = true -> forall n, (n < 64)%N -> P n = true.
Proof.
  intros H n Hn; rewrite forallb_forall in H; apply H.
  unfold sextets; rewrite <- (N2Nat.id n); apply in_map, in_seq; lia.
Qed.

(** ** Hexadecimal *)

Lemma encode_ascii (s : string) :
  ascii_text s -> encode s = list_ascii_of_string s.
Proof.
  unfold ascii_text, encode; induction s as [|c s IH]; [reflexivity |].
  simpl; intros Hall; inversion Hall as [|? ? Hc Hs]; subst.
  unfold utf8 at 1; rewrite Hc; simpl; now rewrite IH.
Qed.

(** A byte is read back from its two digits. *)
Lemma hex_byte (c : ascii) :
  digit_value (hex_digit (N.shiftr (N_of_ascii c) 4))
  = Some (N.shiftr (N_of_ascii c) 4)
  /\ digit_value (hex_digit (N.land (N_of_ascii c) 15))
     = Some (N.land (N_of_ascii c) 15)
  /\ ascii_of_N (N.shiftl (N.shiftr (N_of_ascii c) 4) 4 + N.land (N_of_ascii c) 15) = c.
Proof.
  pose (P := fun c =>
    let hi := N.shiftr (N_of_ascii c) 4 in
    let lo := N.land (N_of_ascii c) 15 in
    match digit_value (hex_digit hi), digit_value (hex_digit lo) with
    | Some h, Some l =>
        N.eqb h hi && N.eqb l lo && Ascii.eqb (ascii_of_N (N.shiftl hi 4 + lo)) c
    | _, _ => false
    end).
  assert (H : P c = true) by (apply forall_ascii; vm_compute; reflexivity).
  unfold P in H; cbv zeta in H.
  destruct (digit_value (hex_digit (N.shiftr (N_of_ascii c) 4))) as [h |];
    [| discriminate].
  destruct (digit_value (hex_digit (N.land (N_of_ascii c) 15))) as [l |];
    [| discriminate].
  apply andb_true_iff in H as [H H3]; apply andb_true_iff in H as [H1 H2].
  apply N.eqb_eq in H1, H2; apply Ascii.eqb_eq in H3; subst; auto.
Qed.

Lemma b2a_hex_chars (data : list ascii) :
  Nat.even (List.length (list_ascii_of_string (b2a_hex data))) = true
  /\ ascii_text (b2a_hex data).
Proof.
  unfold ascii_text; induction data as [|c data [IH1 IH2]]; [split; [reflexivity | constructor] |].
  split; [exact IH1 |].
  simpl; constructor; [| constructor; [| exact IH2]].
  - apply (forall_ascii (fun c =>
      (N_of_ascii (hex_digit (N.shiftr (N_of_ascii c) 4)) <? 128)%N)).
    vm_compute; reflexivity.
  - apply (forall_ascii (fun c =>
      (N_of_ascii (hex_digit (N.land (N_of_ascii c) 15)) <? 128)%N)).
    vm_compute; reflexivity.
Qed.

Lemma a2b_hex_pairs_b2a_hex (data : list ascii) :
  a2b_hex_pairs (list_ascii_of_string (b2a_hex data)) = Returned data.
Proof.
  induction data as [|c data IH]; [reflexivity |].
  destruct (hex_byte c) as (Hh & Hl & Hc).
  cbn [b2a_hex list_ascii_of_string a2b_hex_pairs].
  now rewrite Hh, Hl, IH, Hc.
Qed.

Lemma a2b_hex_b2a_hex (data : list ascii) :
  a2b_hex (encode (b2a_hex data)) = Returned data.
Proof.
  destruct (b2a_hex_chars data) as [Hev Hascii].
  rewrite encode_ascii by assumption.
  unfold a2b_hex; rewrite Hev; apply a2b_hex_pairs_b2a_hex.
Qed.

(** ** Base64 *)

Lemma list_ind3 {A : Type} (P : list A -> Prop) :
  P [] -> (forall a, P [a]) -> (forall a b, P [a; b]) ->
  (forall a b c r, P r -> P (a :: b :: c :: r)) ->
  forall l, P l.
Proof.
  intros H0 H1 H2 H3 l.
  assert (Hn : forall n l, List.length l <= n -> P l).
  { induction n as [|n IH]; intros l' Hl.
    - destruct l'; [exact H0 | simpl in Hl; lia].
    - destruct l' as [|a [|b [|c r]]]; auto.
      apply H3, IH; simpl in Hl; lia. }
  apply (Hn (List.length l)); lia.
Qed.

(** A character of the alphabet is ASCII, is not the padding, and has its
    index for value. *)
Lemma table_b2a_a2b (n : N) :
  (n < 64)%N ->
  (N_of_ascii (table_b2a n) <? 128)%N = true
  /\ Ascii.eqb (table_b2a n) PAD = false
  /\ table_a2b (table_b2a n) = Some n.
Proof.
  intros Hn.
  pose (P := fun n =>
    (N_of_ascii (table_b2a n) <? 128)%N
    && negb (Ascii.eqb (table_b2a n) PAD)
    && match table_a2b (table_b2a n) with Some m => N.eqb m n | None => false end).
  assert (H : P n = true) by (apply forall_sextet; [vm_compute; reflexivity | exact Hn]).
  unfold P in H.
  apply andb_true_iff in H as [H H3]; apply andb_true_iff in H as [H1 H2].
  apply negb_true_iff in H2.
  destruct (table_a2b (table_b2a n)) as [m |]; [| discriminate].
  apply N.eqb_eq in H3; subst; auto.
Qed.

(** One character of the alphabet, read by the loop. *)
Lemma loop_value (n : N) (rest : list ascii) quad_pos leftchar pads bin_data :
  (n < 64)%N ->
  a2b_base64_loop (table_b2a n :: rest) quad_pos leftchar pads bin_data
  = match quad_pos with
    | 0 => a2b_base64_loop rest 1 n 0 bin_data
    | 1 =>
        a2b_base64_loop rest 2 (N.land n 15) 0
          (bin_data ++ [ascii_of_N (N.lor (N.shiftl leftchar 2) (N.shiftr n 4))])
    | 2 =>
        a2b_base64_loop rest 3 (N.land n 3) 0
          (bin_data ++ [ascii_of_N (N.lor (N.shiftl leftchar 4) (N.shiftr n 2))])
    | _ =>
        a2b_base64_loop rest 0 0 0
          (bin_data ++ [ascii_of_N (N.lor (N.shiftl leftchar 6) n)])
    end.
Proof.
  intros Hn; destruct (table_b2a_a2b n Hn) as (_ & Hpad & Hval).
  cbn [a2b_base64_loop]; now rewrite Hpad, Hval.
Qed.

Lemma first_byte (a b : ascii) :
  (sextet1 a < 64)%N /\ (sextet2 a b < 64)%N /\ (sextet2_last a < 64)%N
  /\ ascii_of_N (N.lor (N.shiftl (sextet1 a) 2) (N.shiftr (sextet2 a b) 4)) = a
  /\ ascii_of_N (N.lor (N.shiftl (sextet1 a) 2) (N.shiftr (sextet2_last a) 4)) = a
  /\ N.land (sextet2 a b) 15 = N.shiftr (N_of_ascii b) 4
  /\ N.land (sextet2_last a) 15 = 0%N.
Proof.
  pose (P := fun a b =>
    (sextet1 a <? 64)%N && (sextet2 a b <? 64)%N && (sextet2_last a <? 64)%N
    && Ascii.eqb (ascii_of_N (N.lor (N.shiftl (sextet1 a) 2) (N.shiftr (sextet2 a b) 4))) a
    && Ascii.eqb (ascii_of_N (N.lor (N.shiftl (sextet1 a) 2) (N.shiftr (sextet2_last a) 4))) a
    && N.eqb (N.land (sextet2 a b) 15) (N.shiftr (N_of_ascii b) 4)
    && N.eqb (N.land (sextet2_last a) 15) 0).
  assert (H : P a b = true) by (apply (forall_ascii2 P); vm_compute; reflexivity).
  unfold P in H; repeat (apply andb_true_iff in H as [H ?]).
  repeat match goal with
         | H : (_ <? _)%N = true |- _ => apply N.ltb_lt in H
         | H : Ascii.eqb _ _ = true |- _ => apply Ascii.eqb_eq in H
         | H : N.eqb _ _ = true |- _ => apply N.eqb_eq in H
         end.
  auto 10.
Qed.

Lemma second_byte (b c : ascii) :
  (sextet3 b c < 64)%N /\ (sextet3_last b < 64)%N /\ (sextet4 c < 64)%N
  /\ ascii_of_N (N.lor (N.shiftl (N.shiftr (N_of_ascii b) 4) 4) (N.shiftr (sextet3 b c) 2)) = b
  /\ ascii_of_N (N.lor (N.shiftl (N.shiftr (N_of_ascii b) 4) 4) (N.shiftr (sextet3_last b) 2)) = b
  /\ ascii_of_N (N.lor (N.shiftl (N.land (sextet3 b c) 3) 6) (sextet4 c)) = c.
Proof.
  pose (P := fun b c =>
    (sextet3 b c <? 64)%N && (sextet3_last b <? 64)%N && (sextet4 c <? 64)%N
    && Ascii.eqb (ascii_of_N (N.lor (N.shiftl (N.shiftr (N_of_ascii b) 4) 4)
                                (N.shiftr (sextet3 b c) 2))) b
    && Ascii.eqb (ascii_of_N (N.lor (N.shiftl (N.shiftr (N_of_ascii b) 4) 4)
                                (N.shiftr (sextet3_last b) 2))) b
    && Ascii.eqb (ascii_of_N (N.lor (N.shiftl (N.land (sextet3 b c) 3) 6) (sextet4 c))) c).
  assert (H : P b c = true) by (apply (forall_ascii2 P); vm_compute; reflexivity).
  unfold P in H; repeat (apply andb_true_iff in H as [H ?]).
  repeat match goal with
         | H : (_ <? _)%N = true |- _ => apply N.ltb_lt in H
         | H : Ascii.eqb _ _ = true |- _ => apply Ascii.eqb_eq in H
         end.
  auto 10.
Qed.

Lemma b64encode_unfold (a b c : ascii) (rest : list ascii) :
  list_ascii_of_string (b64encode (a :: b :: c :: rest))
  = table_b2a (sextet1 a) :: table_b2a (sextet2 a b) :: table_b2a (sextet3 b c)
    :: table_b2a (sextet4 c) :: list_ascii_of_string (b64encode rest).
Proof. reflexivity. Qed.

Lemma b64decode_loop_b64encode (data : list ascii) : forall bin_data,
  a2b_base64_loop (list_ascii_of_string (b64encode data)) 0 0 0 bin_data
  = Returned (bin_data ++ data).
Proof.
  induction data as [| a | a b | a b c rest IH] using list_ind3; intros out.
  - simpl; now rewrite app_nil_r.
  - destruct (first_byte a a) as (H1 & _ & H2 & _ & Ha & _).
    change (list_ascii_of_string (b64encode [a]))
      with [table_b2a (sextet1 a); table_b2a (sextet2_last a); PAD; PAD].
    rewrite !loop_value by assumption; rewrite Ha; reflexivity.
  - destruct (first_byte a b) as (H1 & H2 & _ & Ha & _ & Hl & _).
    destruct (second_byte b b) as (_ & H3 & _ & _ & Hb & _).
    change (list_ascii_of_string (b64encode [a; b]))
      with [table_b2a (sextet1 a); table_b2a (sextet2 a b); table_b2a (sextet3_last b); PAD].
    rewrite !loop_value by assumption; rewrite Ha, Hl, Hb.
    cbn [a2b_base64_loop]; cbn; now rewrite <- app_assoc.
  - destruct (first_byte a b) as (H1 & H2 & _ & Ha & _ & Hl & _).
    destruct (second_byte b c) as (H3 & _ & H4 & Hb & _ & Hc).
    rewrite b64encode_unfold, !loop_value by assumption.
    rewrite Ha, Hl, Hb, Hc, IH.
    now rewrite <- !app_assoc.
Qed.

Lemma b64encode_ascii (data : list ascii) : ascii_text (b64encode data).
Proof.
  unfold ascii_text.
  induction data as [| a | a b | a b c rest IH] using list_ind3.
  - constructor.
  - destruct (first_byte a a) as (H1 & _ & H2 & _).
    change (list_ascii_of_string (b64encode [a]))
      with [table_b2a (sextet1 a); table_b2a (sextet2_last a); PAD; PAD].
    repeat constructor; now apply table_b2a_a2b.
  - destruct (first_byte a b) as (H1 & H2 & _).
    destruct (second_byte b b) as (_ & H3 & _).
    change (list_ascii_of_string (b64encode [a; b]))
      with [table_b2a (sextet1 a); table_b2a (sextet2 a b); table_b2a (sextet3_last b); PAD].
    repeat constructor; now apply table_b2a_a2b.
  - destruct (first_byte a b) as (H1 & H2 & _).
    destruct (second_byte b c) as (H3 & _ & H4 & _).
    rewrite b64encode_unfold.
    repeat (constructor; [now apply table_b2a_a2b |]); exact IH.
Qed.

Lemma b64decode_b64encode (data : list ascii) :
  b64decode (encode (b64encode data)) = Returned data.
Proof.
  rewrite encode_ascii by apply b64encode_ascii.
  unfold b64decode; now rewrite b64decode_loop_b64encode.
Qed.

(** ** The conversions of the manager *)

Lemma list_ind2 {A : Type} (P : list A -> Prop) :
  P [] -> (forall a, P [a]) -> (forall a b r, P r -> P (a :: b :: r)) ->
  forall l, P l.
Proof.
  intros H0 H1 H2 l.
  assert (Hn : forall n l, List.length l <= n -> P l).
  { induction n as [|n IH]; intros l' Hl.
    - destruct l'; [exact H0 | simpl in Hl; lia].
    - destruct l' as [|a [|b r]]; auto.
      apply H2, IH; simpl in Hl; lia. }
  apply (Hn (List.length l)); lia.
Qed.

(** Two digits give a byte whose digits are the two, in lower case. *)
Lemma hex_pair (t b : ascii) :
  is_hex t = true -> is_hex b = true ->
  exists vt vb,
    digit_value t = Some vt /\ digit_value b = Some vb
    /\ b2a_hex [ascii_of_N (N.shiftl vt 4 + vb)]
       = String (lower t) (String (lower b) "").
Proof.
  pose (P := fun t b =>
    match digit_value t, digit_value b with
    | Some vt, Some vb =>
        String.eqb (b2a_hex [ascii_of_N (N.shiftl vt 4 + vb)])
                   (String (lower t) (String (lower b) ""))
    | _, _ => true
    end).
  assert (H : P t b = true) by (apply (forall_ascii2 P); vm_compute; reflexivity).
  unfold P, is_hex in *.
  destruct (digit_value t) as [vt |]; [| discriminate].
  destruct (digit_value b) as [vb |]; [| discriminate].
  intros _ _; exists vt, vb; apply String.eqb_eq in H; auto.
Qed.

Lemma is_hex_ascii (c : ascii) : is_hex c = true -> (N_of_ascii c <? 128)%N = true.
Proof.
  intros Hc.
  pose (P := fun c => negb (is_hex c) || (N_of_ascii c <? 128)%N).
  assert (H : P c = true) by (apply (forall_ascii P); vm_compute; reflexivity).
  unfold P in H; rewrite Hc in H; exact H.
Qed.

Lemma utf8_not_hex (c : ascii) :
  is_hex c = false -> exists d, In d (utf8 c) /\ is_hex d = false.
Proof.
  intros Hc.
  pose (P := fun c => is_hex c || existsb (fun d => negb (is_hex d)) (utf8 c)).
  assert (H : P c = true) by (apply (forall_ascii P); vm_compute; reflexivity).
  unfold P in H; rewrite Hc in H; apply existsb_exists in H as (d & Hin & Hd).
  exists d; split; [assumption | now apply negb_true_iff].
Qed.

Lemma hex_text_encode (x : string) :
  forallb is_hex (list_ascii_of_string x) = true ->
  encode x = list_ascii_of_string x.
Proof.
  intros Hall; apply encode_ascii; unfold ascii_text.
  rewrite forallb_forall in Hall; apply Forall_forall.
  intros c Hin; apply is_hex_ascii, Hall, Hin.
Qed.

Lemma a2b_hex_pairs_lower (chars : list ascii) :
  Nat.even (List.length chars) = true ->
  forallb is_hex chars = true ->
  exists digest,
    a2b_hex_pairs chars = Returned digest
    /\ b2a_hex digest = string_of_list_ascii (map lower chars)
    /\ List.length chars = 2 * List.length digest.
Proof.
  induction chars as [| c | t b rest IH] using list_ind2.
  - exists []; auto.
  - discriminate.
  - intros Hev Hall; cbn [forallb] in Hall.
    apply andb_true_iff in Hall as [Ht Hall]; apply andb_true_iff in Hall as [Hb Hall].
    destruct (IH Hev Hall) as (digest & Hd & Hl & Hlen).
    destruct (hex_pair t b Ht Hb) as (vt & vb & Hvt & Hvb & Hpair).
    exists (ascii_of_N (N.shiftl vt 4 + vb) :: digest).
    cbn [a2b_hex_pairs]; rewrite Hvt, Hvb, Hd; split; [reflexivity |].
    split; [| simpl; lia].
    change (b2a_hex (ascii_of_N (N.shiftl vt 4 + vb) :: digest))
      with (b2a_hex [ascii_of_N (N.shiftl vt 4 + vb)] ++ b2a_hex digest)%string.
    rewrite Hpair, Hl; reflexivity.
Qed.

Lemma a2b_hex_pairs_raises (data : list ascii) :
  (exists c, In c data /\ is_hex c = false) ->
  a2b_hex_pairs data = Raised binascii_Error.
Proof.
  induction data as [| c | t b rest IH] using list_ind2.
  - intros (c & [] & _).
  - reflexivity.
  - intros (c & Hin & Hc); cbn [a2b_hex_pairs]; unfold is_hex in *.
    destruct (digit_value t) as [vt |] eqn:Ht; [| reflexivity].
    destruct (digit_value b) as [vb |] eqn:Hb; [| reflexivity].
    rewrite IH; [reflexivity |].
    destruct Hin as [<- | [<- | Hin]];
      [rewrite Ht in Hc; discriminate | rewrite Hb in Hc; discriminate |].
    exists c; split; assumption.
Qed.

Lemma map_string_list (f : ascii -> ascii) (s : string) :
  string_of_list_ascii (map f (list_ascii_of_string s)) = map_string f s.
Proof. induction s as [|c s IH]; [reflexivity | simpl; now rewrite IH]. Qed.

Lemma length_list_ascii (s : string) :
  List.length (list_ascii_of_string s) = String.length s.
Proof. induction s as [|c s IH]; [reflexivity | simpl; now rewrite IH]. Qed.

Lemma md5_to_base64_returns (md5_str : string) :
  hex_text md5_str = true ->
  exists digest,
    md5_to_base64 md5_str = Returned (b64encode digest)
    /\ b2a_hex digest = map_string lower md5_str
    /\ String.length md5_str = 2 * List.length digest.
Proof.
  unfold hex_text; intros Hx; apply andb_true_iff in Hx as [Hev Hall].
  rewrite <- length_list_ascii in Hev.
  destruct (a2b_hex_pairs_lower _ Hev Hall) as (digest & Hd & Hl & Hlen).
  exists digest; unfold md5_to_base64, a2b_hex.
  rewrite hex_text_encode, Hev, Hd by assumption.
  rewrite Hl, map_string_list, <- length_list_ascii; auto.
Qed.

(** X20. On an even number of hexadecimal digits, [md5_to_base64] returns a
    text from which [base64_to_md5] returns the digits in lower case: a
    digest written in lower case comes back as it was. *)
Theorem md5_base64_round_trip (md5_str : string) :
  hex_text md5_str = true ->
  exists b64,
    md5_to_base64 md5_str = Returned b64
    /\ base64_to_md5 b64 = Returned (map_string lower md5_str).
Proof.
  intros Hx; destruct (md5_to_base64_returns md5_str Hx) as (digest & Hd & Hl & _).
  exists (b64encode digest); split; [exact Hd |].
  unfold base64_to_md5; now rewrite b64decode_b64encode, Hl.
Qed.

(** X21. The Base64 text of any bytes is taken by [base64_to_md5] to their
    hexadecimal text, and that text is taken back by [md5_to_base64] to the
    Base64 text. *)
Theorem base64_md5_round_trip (digest : list ascii) :
  base64_to_md5 (b64encode digest) = Returned (b2a_hex digest)
  /\ md5_to_base64 (b2a_hex digest) = Returned (b64encode digest).
Proof.
  unfold base64_to_md5, md5_to_base64.
  now rewrite b64decode_b64encode, a2b_hex_b2a_hex.
Qed.

(** X22. [md5_to_base64] raises [binascii.Error] on every text that is not an
    even number of hexadecimal digits, and on no other. *)
Theorem md5_to_base64_raises_iff (md5_str : string) :
  (hex_text md5_str = false -> md5_to_base64 md5_str = Raised binascii_Error)
  /\ (hex_text md5_str = true -> exists b64, md5_to_base64 md5_str = Returned b64).
Proof.
  split.
  - unfold hex_text, md5_to_base64, a2b_hex; intros Hx.
    destruct (forallb is_hex (list_ascii_of_string md5_str)) eqn:Hall.
    + rewrite andb_true_r in Hx.
      rewrite hex_text_encode, length_list_ascii, Hx by assumption; reflexivity.
    + destruct (Nat.even (List.length (encode md5_str))); [| reflexivity].
      rewrite a2b_hex_pairs_raises; [reflexivity |].
      assert (Hex : exists c, In c (list_ascii_of_string md5_str) /\ is_hex c = false).
      { clear Hx; induction (list_ascii_of_string md5_str) as [|c l IH];
          [discriminate |].
        simpl in Hall; apply andb_false_iff in Hall as [Hc | Hl].
        - exists c; split; [now left | assumption].
        - destruct (IH Hl) as (d & Hin & Hd); exists d; split; [now right | assumption]. }
      destruct Hex as (c & Hin & Hc).
      destruct (utf8_not_hex c Hc) as (d & Hd & Hnot).
      exists d; split; [| assumption].
      unfold encode; apply in_flat_map; exists c; split; assumption.
  - intros Hx; destruct (md5_to_base64_returns md5_str Hx) as (d & Hd & _); eauto.
Qed.

(** X23. The text [md5_to_base64] returns for an MD5 digest, 32 hexadecimal
    digits, is 24 characters long and ends with two padding characters. *)
Theorem md5_to_base64_of_md5 (md5_str : string) :
  hex_text md5_str = true -> String.length md5_str = 32 ->
  exists body,
    md5_to_base64 md5_str = Returned (body ++ "==")%string
    /\ String.length body = 22.
Proof.
  intros Hx Hlen; destruct (md5_to_base64_returns md5_str Hx) as (digest & Hd & _ & Hl).
  rewrite Hd; rewrite Hlen in Hl.
  do 17 (destruct digest as [|? digest]; try (simpl in Hl; lia)).
  cbn [b64encode].
  eexists (String _ (String _ (String _ (String _ (String _ (String _ (String _
          (String _ (String _ (String _ (String _ (String _ (String _ (String _
          (String _ (String _ (String _ (String _ (String _ (String _ (String _
          (String _ "")))))))))))))))))))))).
  split; reflexivity.
Qed.

(** ** The properties on the scenarios *)

Ltac names_are_plain :=
  repeat first [ apply Forall_cons | apply Forall_nil ];
  unfold plain; cbn [no_slash]; repeat split; discriminate.

Ltac no_dotdot := cbn [In app]; intuition discriminate.

Lemma clean_key_is_normal_witness :
  norm_path "x/a.txt" = "x/a.txt" /\ is_dir "x/a.txt" = false.
Proof.
  assert (Hne : ["x"; "a.txt"] <> []) by discriminate.
  assert (Hplain : Forall plain ["x"; "a.txt"]) by names_are_plain.
  assert (Hno : ~ In ".." ["x"; "a.txt"]) by no_dotdot.
  assert (Hstrip : strip (join "/" ["x"; "a.txt"]) = join "/" ["x"; "a.txt"])
    by reflexivity.
  destruct (clean_key_is_normal ["x"; "a.txt"] Hne Hplain Hno Hstrip)
    as (Hnorm & Hfile & _).
  split; [exact Hnorm | exact Hfile].
Defined.

Lemma cd_root_ends_with_separator_witness :
  (root (cd ["b/"] yui_in_x) = ""
   \/ endswith_char (root (cd ["b/"] yui_in_x)) "/" = true)
  /\ attrs_root (cd ["b/"] yui_in_x) = root (cd ["b/"] yui_in_x)
  /\ attr_file_root (cd ["b/"] yui_in_x) = root (cd ["b/"] yui_in_x).
Proof.
  assert (Hacc : cd_accepts ["b/"]) by reflexivity.
  exact (cd_root_ends_with_separator ["b/"] yui_in_x Hacc).
Defined.

Lemma cd_root_has_no_dot_segment_witness :
  Forall (fun seg => seg <> "." /\ seg <> "..")
    (split "/" (root (cd ["../b/./c/"] yui_in_x))).
Proof.
  assert (Hacc : cd_accepts ["../b/./c/"]) by reflexivity.
  exact (cd_root_has_no_dot_segment ["../b/./c/"] yui_in_x Hacc).
Defined.

Lemma cd_child_appends_segment_witness :
  root (cd ["b/"] yui_in_x) = "x/b/".
Proof.
  assert (Hsegs : Forall plain ["x"]) by names_are_plain.
  assert (Hno : ~ In ".." ["x"]) by no_dotdot.
  assert (Hname : plain "b") by (unfold plain; cbn [no_slash]; repeat split; discriminate).
  assert (Hdd : "b" <> "..") by discriminate.
  assert (Hstrip : strip ("b" ++ "/") = ("b" ++ "/")%string) by reflexivity.
  assert (Hroot : root yui_in_x = join "/" (["x"] ++ [""])) by reflexivity.
  exact (cd_child_appends_segment yui_in_x ["x"] "b" Hsegs Hno Hname Hdd Hstrip Hroot).
Defined.

Lemma cd_child_then_parent_witness :
  root (cd [".."] (cd ["b/"] yui_in_x)) = "x/".
Proof.
  assert (Hsegs : Forall plain ["x"]) by names_are_plain.
  assert (Hno : ~ In ".." ["x"]) by no_dotdot.
  assert (Hname : plain "b") by (unfold plain; cbn [no_slash]; repeat split; discriminate).
  assert (Hdd : "b" <> "..") by discriminate.
  assert (Hstrip : strip ("b" ++ "/") = ("b" ++ "/")%string) by reflexivity.
  assert (Hroot : root yui_in_x = join "/" (["x"] ++ [""])) by reflexivity.
  exact (cd_child_then_parent yui_in_x ["x"] "b" Hsegs Hno Hname Hdd Hstrip Hroot).
Defined.

Lemma nested_object_lands_under_destination_witness :
  copy "x/a.txt" "y/" MemBucket.quiet bucket_x
  = (Returned tt,
     World (MemBucket.Mem ["x/a.txt"; "x/b/"; "x/b/c.txt"; "y/a.txt"] []
              ["/"; "/tmp"; "/tmp/d"] [] "/")
       [Called (CopyObject "x/a.txt" "y/a.txt");
        OnSuccess [Str "copy"; Str "x/a.txt"; Str "y/a.txt"; Result 200]]).
Proof.
  assert (Hne : ["x"] <> []) by discriminate.
  assert (Hplain : Forall plain (["x"] ++ ["a.txt"])) by names_are_plain.
  assert (Hno : ~ In ".." (["x"] ++ ["a.txt"])) by no_dotdot.
  assert (Hstrip : strip (join "/" (["x"] ++ ["a.txt"])) = join "/" (["x"] ++ ["a.txt"]))
    by reflexivity.
  assert (Hdest : is_dir (norm_path "y/") = true) by reflexivity.
  destruct (nested_object_lands_under_destination MemBucket.quiet bucket_x
              ["x"] "a.txt" "y/" quiet_returns Hne Hplain Hno Hstrip Hdest)
    as [Hcopy _].
  apply (Hcopy 200%Z); reflexivity.
Defined.

Lemma top_object_into_directory_stays_witness :
  move "a.txt" "y/" MemBucket.quiet bucket_top
  = (Returned tt,
     World (MemBucket.Mem [] [] ["/"] [] "/")
       [Called (CopyObject "a.txt" "a.txt");
        Called (DeleteObject "a.txt");
        OnSuccess [Str "move"; Str "a.txt"; Str "a.txt"; Result 204]]).
Proof.
  assert (Hplain : plain "a.txt")
    by (unfold plain; cbn [no_slash]; repeat split; discriminate).
  assert (Hdd : "a.txt" <> "..") by discriminate.
  assert (Hstrip : strip "a.txt" = "a.txt") by reflexivity.
  assert (Hdest : is_dir (norm_path "y/") = true) by reflexivity.
  destruct (top_object_into_directory_stays MemBucket.quiet bucket_top
              "a.txt" "y/" quiet_returns Hplain Hdd Hstrip Hdest) as [_ Hmove].
  apply (Hmove 200%Z (outside bucket_top) 204%Z); reflexivity.
Defined.

Lemma directory_into_itself_is_rejected_witness :
  fst (copy "x/" "x/b/" MemBucket.quiet bucket_x)
  = Raised (YuiFrom YuiCopyException
              (YuiText YuiCopyException
                 "destination directory is a sub-directory of the source directory"))
  /\ snd (move "x/" "x/" MemBucket.quiet bucket_x) = bucket_x.
Proof.
  assert (Hsrc : is_dir (norm_path "x/") = true) by reflexivity.
  assert (Hsub : is_dir (norm_path "x/b/") = true
                 /\ startswith (norm_path "x/b/") (norm_path "x/") = true)
    by (split; reflexivity).
  assert (Hsame : norm_path "x/" = norm_path "x/") by reflexivity.
  destruct (directory_into_itself_is_rejected MemBucket.quiet bucket_x "x/" "x/b/"
              Hsrc (or_introl Hsub)) as [Hcopy _].
  destruct (directory_into_itself_is_rejected MemBucket.quiet bucket_x "x/" "x/"
              Hsrc (or_intror Hsame)) as [_ Hmove].
  rewrite Hcopy, Hmove; split; reflexivity.
Defined.

Lemma directory_to_object_is_rejected_witness :
  fst (copy "x/" "y" MemBucket.quiet bucket_x)
  = Raised (YuiFrom YuiCopyException
              (YuiText YuiMoveException
                 "destination path should also be a directory"))
  /\ snd (copy "x/" "y" MemBucket.quiet bucket_x) = bucket_x.
Proof.
  assert (Hsrc : is_dir (norm_path "x/") = true) by reflexivity.
  assert (Hdest : is_dir (norm_path "y") = false) by reflexivity.
  destruct (directory_to_object_is_rejected MemBucket.quiet bucket_x "x/" "y"
              Hsrc Hdest) as [Hcopy _].
  rewrite Hcopy; split; reflexivity.
Defined.



Lemma download_object_is_one_request_witness :
  download "x/a.txt" "/tmp/d" true MemBucket.quiet bucket_x
  = (Returned tt,
     World (MemBucket.Mem ["x/a.txt"; "x/b/"; "x/b/c.txt"] []
              ["/"; "/tmp"; "/tmp/d"] ["/tmp/d/a.txt"] "/")
       [Called (GetObjectToFile "x/a.txt" "/tmp/d/a.txt");
        OnSuccess [Str "download"; Str "x/a.txt"; Str "/tmp/d"; Result 200]]).
Proof.
  assert (Hfile : is_dir (norm_path "x/a.txt") = false) by reflexivity.
  assert (Hget : bucket_get_object_to_file (norm_path "x/a.txt") "/tmp/d/a.txt"
                   (outside bucket_x)
                 = (Returned 200%Z,
                    MemBucket.Mem ["x/a.txt"; "x/b/"; "x/b/c.txt"] []
                      ["/"; "/tmp"; "/tmp/d"] ["/tmp/d/a.txt"] "/")) by reflexivity.
  exact (download_object_is_one_request MemBucket.quiet bucket_x "x/a.txt" "/tmp/d"
           true 200%Z _ quiet_returns Hfile Hget).
Defined.

Lemma md5_base64_round_trip_witness :
  md5_to_base64 "d41d8cd98f00b204e9800998ecf8427e" = Returned "1B2M2Y8AsgTpgAmY7PhCfg=="
  /\ exists b64,
       md5_to_base64 "D41D8CD98F00B204E9800998ECF8427E" = Returned b64
       /\ base64_to_md5 b64 = Returned "d41d8cd98f00b204e9800998ecf8427e".
Proof.
  split; [reflexivity |].
  assert (Hx : hex_text "D41D8CD98F00B204E9800998ECF8427E" = true) by reflexivity.
  exact (md5_base64_round_trip "D41D8CD98F00B204E9800998ECF8427E" Hx).
Defined.

Lemma md5_to_base64_of_md5_witness :
  exists body,
    md5_to_base64 "d41d8cd98f00b204e9800998ecf8427e" = Returned (body ++ "==")%string
    /\ String.length body = 22.
Proof.
  assert (Hx : hex_text "d41d8cd98f00b204e9800998ecf8427e" = true) by reflexivity.
  assert (Hlen : String.length "d41d8cd98f00b204e9800998ecf8427e" = 32) by reflexivity.
  exact (md5_to_base64_of_md5 "d41d8cd98f00b204e9800998ecf8427e" Hx Hlen).
Defined.

(** * Uploads and digests of objects *)

(** ** One put *)

Section Uploads.
Context {E : Type} `{Outside E} `{Transfers.Store E}.
Variable dir_digest : string.

Lemma send_eq {A} (r : request) (f : E -> outcome A * E)
    (w : world (E * list request)) res e' :
  f (fst (outside w)) = (res, e') ->
  send r f w = (res, World (e', snd (outside w) ++ [r]) (log w)).
Proof. intros Hf; unfold send; rewrite Hf; reflexivity. Qed.

Lemma upload_event_returns cbs local remote st (w : world (E * list request)) :
  returns cbs ->
  (if (400 <=? st)%Z
   then call_back OnError (on_error cbs)
          [Str "upload"; Str local; Str remote; Result st]
   else call_back OnSuccess (on_success cbs)
          [Str "upload"; Str local; Str remote; Result st]) w
  = (Returned tt, World (outside w) (log w ++ [upload_event local remote st])).
Proof.
  intros (f & g & Hs & He & Hf & Hg); unfold upload_event; rewrite Hs, He.
  destruct (400 <=? st)%Z; unfold call_back; [rewrite Hg | rewrite Hf]; reflexivity.
Qed.

(** X24. [upload] of a local directory, not recursive, sends one put of the
    marker content under a key that ends with the separator, whatever the
    remote path is: the test that the destination is directory-shaped never
    fails, and an object-shaped remote path is taken as the directory of
    that name.  The report carries the normalised remote path. *)
Theorem upload_directory_is_never_refused depth local remote cbs
    (w : world (E * list request)) h st e' :
  let loc := abspath (os_getcwd (fst (outside w))) local in
  let dest :=
    ((if is_dir (norm_path remote)
      then norm_path remote ++ basename loc else norm_path remote) ++ "/")%string in
  returns cbs ->
  os_path_isdir loc (fst (outside w)) = true ->
  md5_to_base64 dir_digest = Returned h ->
  bucket_put_object dest LOCAL_DIR_CONTENT h (fst (outside w)) = (Returned st, e') ->
  upload dir_digest (S depth) local remote false cbs w
  = (Returned tt,
     World (e', snd (outside w) ++ [PutObject dest LOCAL_DIR_CONTENT h])
       (log w ++ [upload_event loc (norm_path remote) st])).
Proof.
  intros loc dest Hcb Hdir Hh Hput.
  cbn [upload]; unfold try_wrap, bind, ask; cbn [outside log].
  fold loc; rewrite Hdir; fold dest.
  assert (Hd : is_dir dest = true)
    by (apply separator_ended_is_dir, endswith_sep_app).
  unfold SEP; fold dest.
  rewrite Hd; cbn [negb]; unfold attempt at 1; rewrite Hh.
  rewrite (send_eq _ _ _ _ _ Hput); unfold ret at 1 2.
  rewrite upload_event_returns by assumption; reflexivity.
Qed.

Lemma upload_file_step depth local remote recursive cbs
    (w : world (E * list request)) loc md5 h st e' :
  let dest :=
    if is_dir (norm_path remote)
    then (norm_path remote ++ basename loc)%string else norm_path remote in
  returns cbs ->
  abspath (os_getcwd (fst (outside w))) local = loc ->
  os_path_isdir loc (fst (outside w)) = false ->
  utils_file_md5 loc (fst (outside w)) = Returned md5 ->
  md5_to_base64 md5 = Returned h ->
  bucket_put_object_from_file dest loc h (fst (outside w)) = (Returned st, e') ->
  upload dir_digest (S depth) local remote recursive cbs w
  = (Returned tt,
     World (e', snd (outside w) ++ [PutObjectFromFile dest loc h])
       (log w ++ [upload_event loc (norm_path remote) st])).
Proof.
  intros dest Hcb Hloc Hdir Hmd5 Hh Hput.
  cbn [upload]; unfold try_wrap, bind, ask; cbn [outside log].
  rewrite Hloc, Hdir, Hmd5.
  replace ((if is_dir (norm_path remote)
            then norm_path remote ++ basename loc else norm_path remote) ++ "")%string
    with dest by (unfold dest; now rewrite append_empty_r).
  unfold attempt; rewrite Hh.
  rewrite (send_eq _ _ _ _ _ Hput).
  rewrite upload_event_returns by assumption; reflexivity.
Qed.

(** X25. [upload] of a local path that is not a directory sends the file
    once, with the Base64 text of its digest as [Content-MD5]: under the
    normalised remote path when this is object-shaped, under it followed by
    the name of the file when it is directory-shaped; [recursive] plays no
    part. *)
Theorem upload_file_is_one_request depth local remote recursive cbs
    (w : world (E * list request)) md5 h st e' :
  let loc := abspath (os_getcwd (fst (outside w))) local in
  let dest :=
    if is_dir (norm_path remote)
    then (norm_path remote ++ basename loc)%string else norm_path remote in
  returns cbs ->
  os_path_isdir loc (fst (outside w)) = false ->
  utils_file_md5 loc (fst (outside w)) = Returned md5 ->
  md5_to_base64 md5 = Returned h ->
  bucket_put_object_from_file dest loc h (fst (outside w)) = (Returned st, e') ->
  upload dir_digest (S depth) local remote recursive cbs w
  = (Returned tt,
     World (e', snd (outside w) ++ [PutObjectFromFile dest loc h])
       (log w ++ [upload_event loc (norm_path remote) st])).
Proof. intros loc dest Hcb; now apply upload_file_step. Qed.

(** X26. [get_md5] of an object whose [Content-MD5] header is the text
    [md5_to_base64] gives for a digest, as [upload] writes it, returns the
    digest in lower case; it asks the bucket for the head of the normalised
    key and for nothing else. *)
Theorem get_md5_reads_what_upload_wrote remote md5 h etag
    (w : world (E * list request)) e' :
  hex_text md5 = true ->
  md5_to_base64 md5 = Returned h ->
  bucket_head_object (norm_path remote) (fst (outside w))
  = (Returned (Some h, etag), e') ->
  get_md5 remote w
  = (Returned (map_string lower md5),
     World (e', snd (outside w) ++ [HeadObject (norm_path remote)]) (log w)).
Proof.
  intros Hx Hh Hhead.
  destruct (md5_to_base64_returns md5 Hx) as (digest & Hd & Hl & _).
  rewrite Hd in Hh; injection Hh as <-.
  unfold get_md5, try_wrap, bind.
  rewrite (send_eq _ _ _ _ _ Hhead); cbn [fst]; unfold attempt.
  unfold base64_to_md5; rewrite b64decode_b64encode, Hl; reflexivity.
Qed.

End Uploads.

(** ** Names under a local directory *)

Lemma named_plain (l : list string) : Forall named l -> Forall plain l.
Proof. apply Forall_impl; now intros c [Hp _]. Qed.

Lemma named_no_dotdot (l : list string) : Forall named l -> ~ In ".." l.
Proof.
  intros Hall Hin; rewrite Forall_forall in Hall.
  destruct (Hall _ Hin) as [_ Hne]; now apply Hne.
Qed.

Lemma named_snoc (l : list string) (x : string) :
  Forall named l -> named x -> Forall named (l ++ [x]).
Proof. intros Hl Hx; apply Forall_app; split; [assumption | now constructor]. Qed.

Lemma named_last (l : list string) :
  l <> [] -> Forall named l -> named (last l "").
Proof.
  intros Hne Hall; rewrite Forall_forall in Hall; apply Hall.
  destruct (exists_last Hne) as (l' & x & ->).
  rewrite last_last; apply in_or_app; right; now left.
Qed.

(** A path made of a separator and names: what [posixpath] gives for it and
    for a name under it. *)
Lemma basename_absolute (comps : list string) :
  comps <> [] -> Forall named comps ->
  basename ("/" ++ join "/" comps) = last comps "".
Proof.
  intros Hne Hall; unfold basename.
  change ("/" ++ join "/" comps)%string with (String "/" (join "/" comps)).
  rewrite split_sep_cons, split_join
    by (try assumption; apply plain_no_slash, named_plain; assumption).
  destruct comps; [contradiction | reflexivity].
Qed.

Lemma normpath_absolute (comps : list string) :
  comps <> [] -> Forall named comps ->
  normpath ("/" ++ join "/" comps) = ("/" ++ join "/" comps)%string.
Proof.
  intros Hne Hall.
  pose proof (normpath_out 1 comps (le_S _ _ (le_n 1)) (named_plain _ Hall)
                (no_dotdot_dots_first 1 comps (named_no_dotdot _ Hall))) as Hn.
  rewrite out_nonempty in Hn by (try assumption; now apply named_plain).
  exact Hn.
Qed.

Lemma child_path (comps : list string) (n cwd : string) :
  comps <> [] -> Forall named comps -> named n ->
  let loc := ("/" ++ join "/" comps)%string in
  path_join loc n = (loc ++ "/" ++ n)%string
  /\ abspath cwd (loc ++ "/" ++ n) = (loc ++ "/" ++ n)%string
  /\ basename (loc ++ "/" ++ n) = n.
Proof.
  intros Hne Hall Hn loc.
  assert (Hsnoc : (loc ++ "/" ++ n)%string = ("/" ++ join "/" (comps ++ [n]))%string).
  { unfold loc; rewrite join_snoc by assumption; reflexivity. }
  assert (Hne' : comps ++ [n] <> []) by (destruct comps; discriminate).
  assert (Hall' := named_snoc _ _ Hall Hn).
  split; [| split].
  - unfold path_join.
    destruct Hn as [Hp _]; destruct (plain_head n Hp) as (c & r & -> & Hc).
    assert (Hs : startswith (String c r) "/" = false).
    { unfold startswith; cbn -[ascii_dec].
      destruct (ascii_dec "/" c); [congruence | reflexivity]. }
    rewrite Hs.
    assert (Hl : endswith_char loc "/" = false).
    { destruct (join_head comps Hne (named_plain _ Hall)) as (d & s & Hj & _).
      pose proof (join_last comps Hne (named_plain _ Hall)) as Hlast.
      unfold endswith_char, loc in *.
      rewrite last_char_app by (rewrite Hj; discriminate); exact Hlast. }
    rewrite Hl; reflexivity.
  - rewrite Hsnoc; unfold abspath.
    unfold startswith; rewrite prefix_app; now apply normpath_absolute.
  - rewrite Hsnoc, basename_absolute by assumption; apply last_last.
Qed.

Lemma strip_fixed (s : string) (c : ascii) :
  starts_kept is_space s -> last_char s = Some c -> is_space c = false ->
  strip s = s.
Proof.
  intros Hs Hl Hc; unfold strip, strip_by.
  rewrite (lstrip_fixed _ _ Hs); now apply (rstrip_keeps _ _ c).
Qed.

Lemma strip_starts_kept (s : string) : strip s = s -> starts_kept is_space s.
Proof.
  intros <-; unfold strip, strip_by.
  apply rstrip_starts_kept, lstrip_starts_kept.
Qed.

Lemma starts_kept_app f (s t : string) :
  s <> "" -> starts_kept f s -> starts_kept f (s ++ t).
Proof. destruct s; [contradiction | intros _ Hs; exact Hs]. Qed.

(** The key of a directory under a clean directory key is clean. *)
Lemma clean_child_key (rcomps : list string) (d : string) :
  rcomps <> [] -> Forall named rcomps -> named d ->
  let remote := (join "/" rcomps ++ "/")%string in
  strip remote = remote ->
  norm_path remote = remote /\ is_dir remote = true
  /\ norm_path (remote ++ d ++ "/") = (remote ++ d ++ "/")%string
  /\ is_dir (remote ++ d ++ "/") = true.
Proof.
  intros Hne Hall Hd remote Hstrip.
  assert (Hdir : forall s, is_dir (s ++ "/") = true)
    by (intros s; apply separator_ended_is_dir, endswith_sep_app).
  assert (Hkey : (remote ++ d ++ "/")%string
                 = (join "/" (rcomps ++ [d]) ++ "/")%string).
  { unfold remote; rewrite join_snoc by assumption.
    now rewrite <- !append_assoc. }
  split; [| split; [apply Hdir | split]].
  - apply norm_path_clean_dir;
      [assumption | now apply named_plain | now apply named_no_dotdot | assumption].
  - rewrite Hkey; apply norm_path_clean_dir.
    + destruct rcomps; discriminate.
    + apply named_plain, named_snoc; assumption.
    + apply named_no_dotdot, named_snoc; assumption.
    + rewrite <- Hkey; apply (strip_fixed _ "/"%char).
      * apply starts_kept_app; [| now apply strip_starts_kept].
        unfold remote; destruct (join "/" rcomps); discriminate.
      * rewrite <- append_assoc, last_char_app by discriminate; reflexivity.
      * reflexivity.
  - rewrite <- append_assoc; apply Hdir.
Qed.

(** ** A directory of files *)

Section Tree.
Context {E : Type} `{Outside E} `{Transfers.Store E}.
Variable dir_digest : string.

Lemma same_files_refl (e : E) : same_files e e.
Proof. split; [reflexivity | intros p; repeat split]. Qed.

Lemma same_files_trans (e1 e2 e3 : E) :
  same_files e1 e2 -> same_files e2 e3 -> same_files e1 e3.
Proof.
  intros [Hc1 H1] [Hc2 H2]; split; [congruence |].
  intros p; destruct (H1 p) as (A1 & B1 & C1), (H2 p) as (A2 & B2 & C2).
  repeat split; congruence.
Qed.

(** The loop of [upload] over the names of a directory that holds files
    only. *)
Lemma children_walk depth cbs (comps : list string) (dest : string)
    (header : string -> string) (e0 : E) :
  puts_answered -> returns cbs ->
  comps <> [] -> Forall named comps ->
  norm_path dest = dest -> is_dir dest = true ->
  let loc := ("/" ++ join "/" comps)%string in
  forall names, Forall named names ->
  (forall n, In n names ->
     os_path_isdir (loc ++ "/" ++ n) e0 = false
     /\ exists md5, utils_file_md5 (loc ++ "/" ++ n) e0 = Returned md5
                    /\ md5_to_base64 md5 = Returned (header n)) ->
  forall w : world (E * list request), same_files e0 (fst (outside w)) ->
  exists sts w',
    List.length sts = List.length names
    /\ for_each names (fun subdir =>
         upload dir_digest (S depth) (path_join loc subdir) dest true cbs) w
       = (Returned tt, w')
    /\ same_files e0 (fst (outside w'))
    /\ snd (outside w')
       = snd (outside w)
         ++ map (fun n => PutObjectFromFile (dest ++ n) (loc ++ "/" ++ n) (header n))
              names
    /\ log w'
       = log w ++ map (fun p => upload_event (loc ++ "/" ++ fst p) dest (snd p))
                    (combine names sts).
Proof.
  intros [_ Hput] Hcb Hne Hall Hnorm Hdir loc names.
  induction names as [|n names IH]; intros Hnames Hfiles w Hsame.
  - exists [], w; cbn; rewrite !app_nil_r; auto.
  - inversion Hnames as [|? ? Hn Hrest]; subst.
    destruct (child_path comps n (os_getcwd (fst (outside w))) Hne Hall Hn)
      as (Hjoin & Habs & Hbase).
    fold loc in Hjoin, Habs, Hbase.
    destruct (Hfiles n (or_introl eq_refl)) as (Hfile & md5 & Hmd5 & Hh).
    destruct Hsame as [Hcwd Hsame].
    destruct (Hsame (loc ++ "/" ++ n)%string) as (Hd1 & _ & Hm1).
    destruct (Hput (dest ++ n)%string (loc ++ "/" ++ n)%string (header n)
                (fst (outside w))) as (st & e' & Hp & Hkeep).
    assert (Hstep :
      upload dir_digest (S depth) (path_join loc n) dest true cbs w
      = (Returned tt,
         World (e', snd (outside w)
                    ++ [PutObjectFromFile (dest ++ n) (loc ++ "/" ++ n) (header n)])
           (log w ++ [upload_event (loc ++ "/" ++ n) dest st]))).
    { pose proof (upload_file_step dir_digest depth (path_join loc n) dest true cbs w
                    (loc ++ "/" ++ n)%string md5 (header n) st e') as Hs.
      cbv zeta in Hs; rewrite Hnorm, Hdir, Hbase in Hs.
      apply Hs; try assumption; [now rewrite Hjoin | congruence | congruence]. }
    destruct (IH Hrest (fun m Hm => Hfiles m (or_intror Hm))
                (World (e', snd (outside w)
                    ++ [PutObjectFromFile (dest ++ n) (loc ++ "/" ++ n) (header n)])
                   (log w ++ [upload_event (loc ++ "/" ++ n) dest st])))
      as (sts & w' & Hlen & Hrun & Hsame' & Hreq & Hlog).
    { cbn [outside fst]; apply (same_files_trans _ (fst (outside w)));
        [split; assumption | assumption]. }
    exists (st :: sts), w'; split; [cbn; now rewrite Hlen |].
    split; [cbn [for_each]; unfold bind; now rewrite Hstep |].
    split; [assumption |].
    cbn [outside snd log fst] in Hreq, Hlog.
    split; [rewrite Hreq, <- app_assoc; reflexivity |].
    rewrite Hlog, <- app_assoc; reflexivity.
Qed.

(** X27. Recursive [upload] of a local directory that holds files only, to
    a clean directory key: the marker is put first, under the remote key
    followed by the name of the directory and the separator; then every
    file, in the order of [os.listdir], under that key followed by its name.
    The files are reported first, each with the key of the directory as its
    remote path, and the directory last. *)
Theorem upload_directory_of_files depth local remote cbs
    (w : world (E * list request)) (comps rcomps names : list string)
    (header : string -> string) (h0 : string) :
  let e := fst (outside w) in
  let loc := abspath (os_getcwd e) local in
  let dest := (remote ++ basename loc ++ "/")%string in
  puts_answered -> returns cbs ->
  loc = ("/" ++ join "/" comps)%string -> comps <> [] -> Forall named comps ->
  remote = (join "/" rcomps ++ "/")%string -> rcomps <> [] ->
  Forall named rcomps -> strip remote = remote ->
  os_path_isdir loc e = true ->
  os_listdir loc e = Returned names ->
  Forall named names ->
  (forall n, In n names ->
     os_path_isdir (loc ++ "/" ++ n) e = false
     /\ exists md5, utils_file_md5 (loc ++ "/" ++ n) e = Returned md5
                    /\ md5_to_base64 md5 = Returned (header n)) ->
  md5_to_base64 dir_digest = Returned h0 ->
  exists sts st w',
    List.length sts = List.length names
    /\ upload dir_digest (S (S depth)) local remote true cbs w = (Returned tt, w')
    /\ snd (outside w')
       = snd (outside w)
         ++ PutObject dest LOCAL_DIR_CONTENT h0
            :: map (fun n => PutObjectFromFile (dest ++ n) (loc ++ "/" ++ n) (header n))
                 names
    /\ log w'
       = log w
         ++ map (fun p => upload_event (loc ++ "/" ++ fst p) dest (snd p))
              (combine names sts)
         ++ [upload_event loc remote st].
Proof.
  intros e loc dest Hput Hcb Hloc Hne Hall Hrem Hrne Hrall Hstrip Hdir Hls
    Hnames Hfiles Hh.
  assert (Hd : named (basename loc))
    by (rewrite Hloc, basename_absolute by assumption; now apply named_last).
  assert (Hkey := clean_child_key rcomps (basename loc) Hrne Hrall Hd).
  cbv zeta in Hkey; rewrite <- Hrem in Hkey.
  destruct (Hkey Hstrip) as (Hnr & Hdr & Hnd & Hdd); clear Hkey.
  fold dest in Hnd, Hdd.
  destruct (proj1 Hput dest LOCAL_DIR_CONTENT h0 e) as (st & e1 & Hp & Hkeep).
  rewrite Hloc in Hfiles.
  destruct (children_walk depth cbs comps dest header e Hput Hcb Hne Hall Hnd Hdd
              names Hnames Hfiles
              (World (e1, snd (outside w) ++ [PutObject dest LOCAL_DIR_CONTENT h0])
                 (log w)) Hkeep)
    as (sts & w' & Hlen & Hrun & Hsame & Hreq & Hlog).
  rewrite <- Hloc in Hrun, Hreq, Hlog.
  cbn [outside snd log] in Hreq, Hlog.
  exists sts, st, (World (outside w') (log w' ++ [upload_event loc remote st])).
  split; [assumption |].
  split; [| split].
  - remember (S depth) as depth' eqn:Hdepth.
    cbn [upload]; unfold try_wrap, bind, ask; cbn [outside log].
    fold e; fold loc; rewrite Hdir, Hnr, Hdr.
    unfold SEP.
    replace ((remote ++ basename loc) ++ "/")%string with dest
      by (unfold dest; now rewrite append_assoc).
    rewrite Hdd; cbn [negb]; unfold attempt at 1; rewrite Hh.
    rewrite (send_eq _ _ _ _ _ Hp); cbn [outside fst].
    destruct Hkeep as [_ Hkeep]; destruct (Hkeep loc) as (_ & Hls' & _).
    rewrite Hls', Hls; subst depth'; rewrite Hrun; unfold ret at 1.
    rewrite upload_event_returns by assumption; reflexivity.
  - cbn [outside]; rewrite Hreq, <- app_assoc; reflexivity.
  - cbn [log]; rewrite Hlog, <- app_assoc; reflexivity.
Qed.

End Tree.

(** ** One report for every put *)

Section Reports.
Context {E : Type} `{Outside E} `{Transfers.Store E}.
Variable dir_digest : string.

Lemma reported_refl (w : world (E * list request)) : reported w w.
Proof. exists [], []; rewrite !app_nil_r; repeat split; constructor. Qed.

Lemma reported_trans (w1 w2 w3 : world (E * list request)) :
  reported w1 w2 -> reported w2 w3 -> reported w1 w3.
Proof.
  intros (rs1 & evs1 & Hr1 & Hl1 & Hp1 & He1 & Hn1)
         (rs2 & evs2 & Hr2 & Hl2 & Hp2 & He2 & Hn2).
  exists (rs1 ++ rs2), (evs1 ++ evs2).
  rewrite Hr2, Hr1, Hl2, Hl1, !app_assoc, !length_app.
  repeat split; try apply Forall_app; auto.
Qed.

Lemma for_each_reported {A : Type} (body : A -> M (E * list request) unit) :
  (forall x w w', body x w = (Returned tt, w') -> reported w w') ->
  forall l w w', for_each l body w = (Returned tt, w') -> reported w w'.
Proof.
  intros Hbody l; induction l as [|x l IH]; intros w w' Hrun.
  - injection Hrun as <-; apply reported_refl.
  - cbn [for_each] in Hrun; unfold bind in Hrun.
    destruct (body x w) as [[[]|e] w1] eqn:Hx; [| discriminate].
    apply (reported_trans _ w1); [now apply (Hbody x) | now apply IH].
Qed.

(** One put and its report. *)
Lemma put_and_report (w : world (E * list request)) e1 r rest local remote st :
  is_put r ->
  reported (World (e1, snd (outside w) ++ [r]) (log w)) rest ->
  reported w (World (outside rest) (log rest ++ [upload_event local remote st])).
Proof.
  intros Hr (rs & evs & Hreq & Hlog & Hp & He & Hn).
  cbn [outside snd log] in Hreq, Hlog.
  exists (r :: rs), (evs ++ [upload_event local remote st]); cbn [outside log].
  rewrite Hreq, Hlog, <- !app_assoc, length_app; cbn [List.length app].
  repeat split; [now constructor | | lia].
  apply Forall_app; split; [assumption |].
  constructor; [| constructor].
  unfold upload_event; destruct (400 <=? st)%Z; exact I.
Qed.

Lemma upload_reported depth : forall local remote recursive cbs
    (w w' : world (E * list request)),
  returns cbs ->
  upload dir_digest depth local remote recursive cbs w = (Returned tt, w') ->
  reported w w'.
Proof.
  induction depth as [|depth IH]; intros local remote recursive cbs w w' Hcb Hrun;
    [discriminate |].
  cbn [upload] in Hrun; unfold try_wrap, bind, ask in Hrun; cbn [outside log] in Hrun.
  set (loc := abspath (os_getcwd (fst (outside w))) local) in *.
  destruct (os_path_isdir loc (fst (outside w))) eqn:Hdir.
  - set (dest := ((if is_dir (norm_path remote)
                   then norm_path remote ++ basename loc
                   else norm_path remote) ++ SEP)%string) in *.
    destruct (negb (is_dir dest)); [discriminate |].
    unfold attempt at 1 in Hrun.
    destruct (md5_to_base64 dir_digest) as [h|x]; [| discriminate].
    unfold send in Hrun.
    destruct (bucket_put_object dest LOCAL_DIR_CONTENT h (fst (outside w)))
      as [[st|x] e1] eqn:Hput; [| discriminate].
    destruct recursive.
    + cbn [outside fst] in Hrun.
      destruct (os_listdir loc e1) as [names|x]; [| discriminate].
      match type of Hrun with
      | context [for_each names ?b ?w1] =>
          destruct (for_each names b w1) as [[[]|x] w2] eqn:Hloop; [| discriminate]
      end.
      unfold ret at 1 in Hrun.
      rewrite upload_event_returns in Hrun by assumption.
      injection Hrun as <-.
      apply (put_and_report _ e1 (PutObject dest LOCAL_DIR_CONTENT h)); [exact I |].
      revert Hloop; apply for_each_reported.
      intros x w0 w0'; now apply IH.
    + unfold ret at 1 2 in Hrun.
      rewrite upload_event_returns in Hrun by assumption.
      injection Hrun as <-; cbn [outside log].
      apply (put_and_report w e1 (PutObject dest LOCAL_DIR_CONTENT h)
               (World (e1, snd (outside w) ++ [PutObject dest LOCAL_DIR_CONTENT h])
                  (log w))); [exact I |].
      apply reported_refl.
  - destruct (utils_file_md5 loc (fst (outside w))) as [md5|x]; [| discriminate].
    unfold attempt in Hrun.
    destruct (md5_to_base64 md5) as [h|x]; [| discriminate].
    unfold send in Hrun.
    match type of Hrun with
    | context [bucket_put_object_from_file ?k ?f ?hd ?e0] =>
        destruct (bucket_put_object_from_file k f hd e0) as [[st|x] e1] eqn:Hput;
          [| discriminate];
        rewrite upload_event_returns in Hrun by assumption;
        injection Hrun as <-; cbn [outside log];
        apply (put_and_report w e1 (PutObjectFromFile k f hd)
                 (World (e1, snd (outside w) ++ [PutObjectFromFile k f hd]) (log w)));
          [exact I | apply reported_refl]
    end.
Qed.

(** X28. Whatever the local tree, the depth and the answers of the bucket,
    an [upload] that returns has sent puts only, and has made one report
    for each of them. *)
Theorem upload_reports_every_put depth local remote recursive cbs
    (w w' : world (E * list request)) :
  returns cbs ->
  upload dir_digest depth local remote recursive cbs w = (Returned tt, w') ->
  exists rs evs,
    snd (outside w') = snd (outside w) ++ rs
    /\ log w' = log w ++ evs
    /\ Forall is_put rs /\ Forall is_report evs
    /\ List.length rs = List.length evs.
Proof. intros Hcb Hrun; exact (upload_reported depth _ _ _ _ _ _ Hcb Hrun). Qed.

End Reports.

(** ** Uploads from the directory in memory *)

Ltac names_are_named :=
  repeat first [ apply Forall_cons | apply Forall_nil ];
  unfold named, plain; cbn [no_slash]; repeat split; discriminate.

Lemma store_puts_answered : puts_answered (E := MemStore.t).
Proof.
  split; intros key x h e; exists 200%Z; eexists; (split; [reflexivity |]);
    (split; [reflexivity | intros p; repeat split]).
Qed.

Lemma upload_directory_is_never_refused_witness :
  let r := upload dir_md5 1 "d" "a.txt" false MemBucket.quiet home_d in
  fst r = Returned tt
  /\ snd (outside (snd r))
     = [PutObject "a.txt/" "$DIR$" "qBkvUxlQDpaFA/gq5jzEug=="]
  /\ log (snd r)
     = [OnSuccess [Str "upload"; Str "/home/d"; Str "a.txt"; Result 200]].
Proof.
  assert (Hdir : os_path_isdir (abspath (os_getcwd (fst (outside home_d))) "d")
                   (fst (outside home_d)) = true) by reflexivity.
  assert (Hh : md5_to_base64 dir_md5 = Returned "qBkvUxlQDpaFA/gq5jzEug==")
    by reflexivity.
  assert (Hput :
    bucket_put_object
      ((if is_dir (norm_path "a.txt")
        then norm_path "a.txt"
             ++ basename (abspath (os_getcwd (fst (outside home_d))) "d")
        else norm_path "a.txt") ++ "/")%string
      LOCAL_DIR_CONTENT "qBkvUxlQDpaFA/gq5jzEug==" (fst (outside home_d))
    = (Returned 200%Z,
       snd (MemStore.put "a.txt/" "qBkvUxlQDpaFA/gq5jzEug==" (fst (outside home_d)))))
    by reflexivity.
  cbv zeta.
  rewrite (upload_directory_is_never_refused dir_md5 0 "d" "a.txt" MemBucket.quiet
             home_d _ 200%Z _ quiet_returns Hdir Hh Hput).
  repeat split.
Defined.

Lemma upload_file_is_one_request_witness :
  let r := upload dir_md5 1 "d/a.txt" "backup/" true MemBucket.quiet home_d in
  fst r = Returned tt
  /\ snd (outside (snd r))
     = [PutObjectFromFile "backup/a.txt" "/home/d/a.txt" "DMF1ucDxtqgxw5niaXcmYQ=="]
  /\ log (snd r)
     = [OnSuccess [Str "upload"; Str "/home/d/a.txt"; Str "backup/"; Result 200]].
Proof.
  assert (Hdir : os_path_isdir (abspath (os_getcwd (fst (outside home_d))) "d/a.txt")
                   (fst (outside home_d)) = false) by reflexivity.
  assert (Hmd5 : utils_file_md5 (abspath (os_getcwd (fst (outside home_d))) "d/a.txt")
                   (fst (outside home_d))
                 = Returned "0cc175b9c0f1b6a831c399e269772661") by reflexivity.
  assert (Hh : md5_to_base64 "0cc175b9c0f1b6a831c399e269772661"
               = Returned "DMF1ucDxtqgxw5niaXcmYQ==") by reflexivity.
  assert (Hput :
    bucket_put_object_from_file
      (if is_dir (norm_path "backup/")
       then (norm_path "backup/"
             ++ basename (abspath (os_getcwd (fst (outside home_d))) "d/a.txt"))%string
       else norm_path "backup/")
      (abspath (os_getcwd (fst (outside home_d))) "d/a.txt")
      "DMF1ucDxtqgxw5niaXcmYQ==" (fst (outside home_d))
    = (Returned 200%Z,
       snd (MemStore.put "backup/a.txt" "DMF1ucDxtqgxw5niaXcmYQ=="
              (fst (outside home_d))))) by reflexivity.
  cbv zeta.
  rewrite (upload_file_is_one_request dir_md5 0 "d/a.txt" "backup/" true
             MemBucket.quiet home_d _ _ 200%Z _ quiet_returns Hdir Hmd5 Hh Hput).
  repeat split.
Defined.

Lemma get_md5_reads_what_upload_wrote_witness :
  let uploaded :=
    snd (upload dir_md5 1 "d/a.txt" "backup/" false MemBucket.quiet home_d) in
  fst (get_md5 "backup/a.txt" uploaded)
  = Returned "0cc175b9c0f1b6a831c399e269772661".
Proof.
  set (uploaded :=
         snd (upload dir_md5 1 "d/a.txt" "backup/" false MemBucket.quiet home_d)).
  assert (Hx : hex_text "0cc175b9c0f1b6a831c399e269772661" = true) by reflexivity.
  assert (Hh : md5_to_base64 "0cc175b9c0f1b6a831c399e269772661"
               = Returned "DMF1ucDxtqgxw5niaXcmYQ==") by reflexivity.
  assert (Hhead : bucket_head_object (norm_path "backup/a.txt") (fst (outside uploaded))
                  = (Returned (Some "DMF1ucDxtqgxw5niaXcmYQ==", "0"),
                     fst (outside uploaded))) by reflexivity.
  cbv zeta.
  rewrite (get_md5_reads_what_upload_wrote "backup/a.txt" _ _ _ uploaded _ Hx Hh Hhead).
  reflexivity.
Defined.

Lemma upload_directory_of_files_witness :
  exists w',
    upload dir_md5 2 "d" "backup/" true MemBucket.quiet home_d = (Returned tt, w')
    /\ snd (outside w')
       = [PutObject "backup/d/" "$DIR$" "qBkvUxlQDpaFA/gq5jzEug==";
          PutObjectFromFile "backup/d/a.txt" "/home/d/a.txt" "DMF1ucDxtqgxw5niaXcmYQ==";
          PutObjectFromFile "backup/d/b.txt" "/home/d/b.txt" "kutf/uauL+w61xx3dTFXjw=="].
Proof.
  pose (header := fun n : string =>
          if String.eqb n "a.txt" then "DMF1ucDxtqgxw5niaXcmYQ=="
          else "kutf/uauL+w61xx3dTFXjw==").
  assert (Hloc : abspath (os_getcwd (fst (outside home_d))) "d"
                 = ("/" ++ join "/" ["home"; "d"])%string) by reflexivity.
  assert (Hne : ["home"; "d"] <> []) by discriminate.
  assert (Hall : Forall named ["home"; "d"]) by names_are_named.
  assert (Hrem : "backup/" = (join "/" ["backup"] ++ "/")%string) by reflexivity.
  assert (Hrne : ["backup"] <> []) by discriminate.
  assert (Hrall : Forall named ["backup"]) by names_are_named.
  assert (Hstrip : strip "backup/" = "backup/") by reflexivity.
  assert (Hdir : os_path_isdir (abspath (os_getcwd (fst (outside home_d))) "d")
                   (fst (outside home_d)) = true) by reflexivity.
  assert (Hls : os_listdir (abspath (os_getcwd (fst (outside home_d))) "d")
                  (fst (outside home_d)) = Returned ["a.txt"; "b.txt"]) by reflexivity.
  assert (Hnames : Forall named ["a.txt"; "b.txt"]) by names_are_named.
  assert (Hfiles : forall n, In n ["a.txt"; "b.txt"] ->
     os_path_isdir (abspath (os_getcwd (fst (outside home_d))) "d" ++ "/" ++ n)
       (fst (outside home_d)) = false
     /\ exists md5,
          utils_file_md5 (abspath (os_getcwd (fst (outside home_d))) "d" ++ "/" ++ n)
            (fst (outside home_d)) = Returned md5
          /\ md5_to_base64 md5 = Returned (header n)).
  { intros n [<- | [<- | []]]; (split; [reflexivity |]); eexists; split; reflexivity. }
  assert (Hh : md5_to_base64 dir_md5 = Returned "qBkvUxlQDpaFA/gq5jzEug==")
    by reflexivity.
  destruct (upload_directory_of_files dir_md5 0 "d" "backup/" MemBucket.quiet home_d
              ["home"; "d"] ["backup"] ["a.txt"; "b.txt"] header _
              store_puts_answered quiet_returns Hloc Hne Hall Hrem Hrne Hrall Hstrip
              Hdir Hls Hnames Hfiles Hh)
    as (sts & st & w' & _ & Hrun & Hreq & _).
  exists w'; split; [exact Hrun | exact Hreq].
Defined.

Lemma upload_reports_every_put_witness :
  let w' := snd (upload dir_md5 2 "d" "backup/" true MemBucket.quiet home_d) in
  exists rs evs,
    snd (outside w') = snd (outside home_d) ++ rs
    /\ log w' = log home_d ++ evs
    /\ Forall is_put rs /\ Forall is_report evs
    /\ List.length rs = List.length evs.
Proof.
  assert (Hrun : upload dir_md5 2 "d" "backup/" true MemBucket.quiet home_d
                 = (Returned tt,
                    snd (upload dir_md5 2 "d" "backup/" true MemBucket.quiet home_d)))
    by reflexivity.
  exact (upload_reports_every_put dir_md5 2 "d" "backup/" true MemBucket.quiet
           home_d _ quiet_returns Hrun).
Defined.

(** * The [ls] command *)

Lemma prefix_split (p s : string) :
  String.prefix p s = true -> exists t, s = (p ++ t)%string.
Proof.
  revert s; induction p as [|c p IH]; intros s Hp; [now exists s |].
  destruct s as [|d s]; [discriminate |]; cbn -[ascii_dec] in Hp.
  destruct (ascii_dec c d) as [-> | _]; [| discriminate].
  destruct (IH s Hp) as [t ->]; now exists t.
Qed.

Lemma length_append (a b : string) :
  String.length (a ++ b) = String.length a + String.length b.
Proof. induction a as [|c a IH]; simpl; [reflexivity | now rewrite IH]. Qed.

Lemma no_slash_app (a b : string) : no_slash a -> no_slash b -> no_slash (a ++ b).
Proof. induction a as [|c a IH]; simpl; [auto | intros [Hc Ha] Hb; auto]. Qed.

(** An occurrence of [old] in front is replaced, and the scan goes on after
    it. *)
Lemma replace_from_front (old new rest : string) :
  old <> "" ->
  replace_from old new (old ++ rest) 0 = (new ++ replace_from old new rest 0)%string.
Proof.
  intros Hne; destruct old as [|c p] eqn:Hold; [contradiction |].
  cbn [String.append replace_from].
  change (String c (p ++ rest)) with (String c p ++ rest)%string.
  rewrite prefix_app.
  replace (String.length (String c p) - 1) with (String.length p)
    by (cbn [String.length]; lia).
  now rewrite replace_from_skip.
Qed.

(** A name followed by [seg/] loses the [seg/]: the only place where
    [seg/] occurs in it is its end. *)
Lemma replace_from_tail (seg x : string) :
  no_slash seg -> no_slash x ->
  replace_from (seg ++ "/") "" (x ++ seg ++ "/") 0 = x.
Proof.
  intros Hseg; induction x as [|c x IH]; intros Hx.
  - cbn [String.append].
    rewrite <- (append_empty_r (seg ++ "/")) at 2.
    rewrite replace_from_front by (destruct seg; discriminate); reflexivity.
  - destruct Hx as [Hc Hx].
    cbn [String.append replace_from].
    destruct (String.prefix (seg ++ "/") (String c (x ++ seg ++ "/"))) eqn:Hp.
    + exfalso; apply prefix_split in Hp as [t Ht].
      apply (f_equal (split "/")) in Ht.
      change (String c (x ++ seg ++ "/")) with (String c x ++ seg ++ "/")%string in Ht.
      rewrite <- (append_assoc (String c x) seg "/") in Ht.
      rewrite (append_assoc seg "/" t) in Ht.
      change ("/" ++ t)%string with (String "/" t) in Ht.
      change "/" with (String "/" "") in Ht at 1.
      rewrite (split_app_sep (String c x ++ seg) "") in Ht
        by (apply no_slash_app; [split |]; assumption).
      rewrite (split_app_sep seg t) in Ht by assumption.
      injection Ht as Hhead _.
      apply (f_equal String.length) in Hhead.
      cbn [String.append String.length] in Hhead.
      rewrite length_append in Hhead; lia.
    + now rewrite IH.
Qed.

Section Ls.
Context {E : Type} `{Outside E}.

Lemma ls_answered (all : bool) (y : Yui E) (keys : list string) (e' : E) :
  bucket_list_objects (root y) (if all then "" else SEP) (outside (fm y))
  = (Returned keys, e') ->
  let files :=
    map (fun key => replace key (root y) "")
      (filter (fun key => negb (String.eqb key (root y))) keys) in
  files <> [] ->
  fst (ls all y) = Returned tt
  /\ stdout (snd (ls all y))
     = stdout y
       ++ [(BLUE, ("bucket@ " ++ bucket_name y ++ TAB ++ "root@ " ++ root y ++ NL)%string);
           (GREEN, ("listing " ++ decimal (List.length files) ++ " files in /"
                    ++ root y ++ ":" ++ NL ++ join TAB files)%string)].
Proof.
  intros Hlist files Hne; unfold ls, list_dir.
  cbn [basic_info_print print root fm bucket_name].
  rewrite (invoke_eq _ _ _ _ _ Hlist); fold files.
  destruct files as [|f fs] eqn:Hf; [contradiction |].
  cbn [List.length Nat.ltb Nat.leb fst snd print stdout set_fm].
  split; [reflexivity |].
  unfold basic_info_print, print; cbn [stdout].
  rewrite <- app_assoc; reflexivity.
Qed.

Lemma shown_by_name (r : string) (names : list string) (marker : bool) :
  Forall no_slash names -> ~ In "" names ->
  map (fun key => replace key (r ++ "/") "")
    (filter (fun key => negb (String.eqb key (r ++ "/")))
       ((if marker then [(r ++ "/")%string] else [])
        ++ map (append (r ++ "/")) names))
  = names.
Proof.
  intros Hall Hne.
  rewrite filter_app.
  replace (filter _ (if marker then [(r ++ "/")%string] else [])) with (@nil string)
    by (destruct marker; cbn; [now rewrite String.eqb_refl | reflexivity]).
  cbn [app]; induction names as [|n names IH]; [reflexivity |].
  inversion Hall as [|? ? Hn Hrest]; subst.
  cbn [map filter].
  assert (Hneq : String.eqb ((r ++ "/") ++ n) (r ++ "/") = false).
  { apply String.eqb_neq; intros Heq.
    apply (f_equal String.length) in Heq; rewrite length_append in Heq.
    destruct n; [apply Hne; now left | cbn [String.length] in Heq; lia]. }
  rewrite Hneq; cbn [negb map].
  rewrite replace_parent by assumption; cbn [String.append].
  rewrite IH; [reflexivity | assumption |].
  intros Hin; apply Hne; now right.
Qed.

(** X29. In a directory whose listing gives its own key, if at all, and
    files by their keys, [ls] returns and prints the number of the files and
    their names without the directory, in the order of the listing. *)
Theorem ls_shows_files_by_name (all : bool) (y : Yui E) (r : string)
    (names : list string) (marker : bool) (e' : E) :
  root y = (r ++ "/")%string ->
  names <> [] -> Forall no_slash names -> ~ In "" names ->
  bucket_list_objects (root y) (if all then "" else SEP) (outside (fm y))
  = (Returned ((if marker then [root y] else []) ++ map (append (root y)) names), e') ->
  fst (ls all y) = Returned tt
  /\ stdout (snd (ls all y))
     = stdout y
       ++ [(BLUE, ("bucket@ " ++ bucket_name y ++ TAB ++ "root@ " ++ root y ++ NL)%string);
           (GREEN, ("listing " ++ decimal (List.length names) ++ " files in /"
                    ++ root y ++ ":" ++ NL ++ join TAB names)%string)].
Proof.
  intros Hroot Hne Hall Hno Hlist.
  pose proof (ls_answered all y _ e' Hlist) as Hls; cbv zeta in Hls.
  destruct y as [w b rt ar af so]; cbn [root fm bucket_name stdout] in *; subst rt.
  rewrite shown_by_name in Hls by assumption.
  now apply Hls.
Qed.

(** X30. [ls] removes the key of the current directory wherever it occurs in
    a key, not only in front: in the directory [seg/] the directory
    [seg/xseg/] is printed as [x]. *)
Theorem ls_misnames_directory_ending_like_root (all : bool) (y : Yui E)
    (seg x : string) (e' : E) :
  root y = (seg ++ "/")%string ->
  no_slash seg -> no_slash x -> x <> "" ->
  bucket_list_objects (root y) (if all then "" else SEP) (outside (fm y))
  = (Returned [root y; (root y ++ x ++ seg ++ "/")%string], e') ->
  fst (ls all y) = Returned tt
  /\ stdout (snd (ls all y))
     = stdout y
       ++ [(BLUE, ("bucket@ " ++ bucket_name y ++ TAB ++ "root@ " ++ root y ++ NL)%string);
           (GREEN, ("listing 1 files in /" ++ root y ++ ":" ++ NL ++ x)%string)].
Proof.
  intros Hroot Hseg Hx Hne Hlist.
  pose proof (ls_answered all y _ e' Hlist) as Hls; cbv zeta in Hls.
  assert (Hneq : String.eqb (root y ++ x ++ seg ++ "/") (root y) = false).
  { apply String.eqb_neq; intros Heq.
    apply (f_equal String.length) in Heq; rewrite !length_append in Heq.
    cbn [String.length] in Heq; lia. }
  cbn [filter map] in Hls.
  rewrite String.eqb_refl, Hneq in Hls; cbn [negb map List.length] in Hls.
  assert (Hshown : replace (root y ++ x ++ seg ++ "/") (root y) "" = x).
  { rewrite Hroot; unfold replace.
    destruct (seg ++ "/")%string as [|c p] eqn:Hold; [destruct seg; discriminate |].
    rewrite <- Hold, replace_from_front by (rewrite Hold; discriminate).
    cbn [String.append]; now apply replace_from_tail. }
  rewrite Hshown in Hls.
  apply Hls; discriminate.
Qed.

End Ls.

(** ** [ls] on the buckets in memory *)

Lemma ls_shows_files_by_name_witness :
  fst (ls false yui_in_d) = Returned tt
  /\ stdout (snd (ls false yui_in_d))
     = [(BLUE, ("bucket@ bkt" ++ TAB ++ "root@ d/" ++ NL)%string);
        (GREEN, ("listing 2 files in /d/:" ++ NL ++ "a.txt" ++ TAB ++ "b.txt")%string)].
Proof.
  assert (Hroot : root yui_in_d = ("d" ++ "/")%string) by reflexivity.
  assert (Hne : ["a.txt"; "b.txt"] <> []) by discriminate.
  assert (Hall : Forall no_slash ["a.txt"; "b.txt"])
    by (repeat constructor; discriminate).
  assert (Hno : ~ In "" ["a.txt"; "b.txt"]) by (cbn [In]; intuition discriminate).
  assert (Hlist :
    bucket_list_objects (root yui_in_d) (if false then "" else SEP)
      (outside (fm yui_in_d))
    = (Returned ((if true then [root yui_in_d] else [])
                 ++ map (append (root yui_in_d)) ["a.txt"; "b.txt"]),
       outside (fm yui_in_d))) by reflexivity.
  exact (ls_shows_files_by_name false yui_in_d "d" ["a.txt"; "b.txt"] true _
           Hroot Hne Hall Hno Hlist).
Defined.

Lemma ls_misnames_directory_ending_like_root_witness :
  fst (ls false yui_in_a) = Returned tt
  /\ stdout (snd (ls false yui_in_a))
     = [(BLUE, ("bucket@ bkt" ++ TAB ++ "root@ a/" ++ NL)%string);
        (GREEN, ("listing 1 files in /a/:" ++ NL ++ "x")%string)].
Proof.
  assert (Hroot : root yui_in_a = ("a" ++ "/")%string) by reflexivity.
  assert (Hseg : no_slash "a") by (repeat split; discriminate).
  assert (Hx : no_slash "x") by (repeat split; discriminate).
  assert (Hne : "x" <> "") by discriminate.
  assert (Hlist :
    bucket_list_objects (root yui_in_a) (if false then "" else SEP)
      (outside (fm yui_in_a))
    = (Returned [root yui_in_a; (root yui_in_a ++ "x" ++ "a" ++ "/")%string],
       outside (fm yui_in_a))) by reflexivity.
  exact (ls_misnames_directory_ending_like_root false yui_in_a "a" "x" _
           Hroot Hseg Hx Hne Hlist).
Defined.
